(** * Orbital kinematics and camera control of the solar-system simulation

    A shallow embedding of the [Simulation] class (constructor, [init],
    [updateInteraction], [zoomIn], [zoomOut], [animate]) and of the event
    wiring of [main.js], followed by the properties of the frame loop, of
    the orbit formula and of the zoom steps.

    JavaScript numbers are modelled by the real numbers [R]: arithmetic is
    exact, [Math.sqrt], [Math.cos], [Math.sin], [Math.max] and [Math.min]
    are [sqrt], [cos], [sin], [Rmax] and [Rmin]. Rounding of binary64
    values and [NaN] are not part of that model. The module [Binary64]
    repeats the two zoom methods on binary64 values, rounding included, and
    tells which of the exact results the program's own arithmetic keeps. *)

From Stdlib Require Import Reals Lra Lia List Bool String Arith.
From Stdlib Require PrimFloat.
Import ListNotations.
Local Open Scope R_scope.

(** ** JavaScript values *)

Module JS.

(** [x || d] on numbers: [0] is the falsy number, every other one is kept. *)
Definition or (x d : R) : R := if Req_dec_T x 0 then d else x.

(** A JavaScript call either returns or throws. The source has no [throw]
    statement and raises no [ConfigurationError], the error its
    specification names; what its calls can throw is the [TypeError] of a
    property read on [undefined], kept as [OtherError]. *)
Inductive error : Type := ConfigurationError | OtherError.

Inductive completion (A : Type) : Type :=
| Returns (a : A)
| Throws (err : error).
Arguments Returns {A} a.
Arguments Throws {A} err.

End JS.

(** ** three.js [Vector3]: the methods the simulation calls

    [Vector3] comes from the three.js library, which the simulation
    imports. Its methods are modelled as the library defines them:
    componentwise [sub], [add] and [multiplyScalar], the Euclidean
    [length], [divideScalar(k)] as [multiplyScalar(1 / k)], and
    [normalize()] as [divideScalar(length() || 1)], so that the zero vector
    normalizes to itself. [clone] and [copy] are value copies. *)

Module Vector3.

Record t : Type := mk { x : R; y : R; z : R }.

(** [new THREE.Vector3(0, 0, 0)], also the position of a fresh object. *)
Definition zero : t := mk 0 0 0.

Definition sub (a b : t) : t := mk (x a - x b) (y a - y b) (z a - z b).
Definition add (a b : t) : t := mk (x a + x b) (y a + y b) (z a + z b).
Definition length (v : t) : R := sqrt (x v * x v + y v * y v + z v * z v).
Definition multiplyScalar (v : t) (k : R) : t := mk (x v * k) (y v * k) (z v * k).
Definition divideScalar (v : t) (k : R) : t := multiplyScalar v (1 / k).

(** [normalize() { return this.divideScalar(this.length() || 1) }] *)
Definition normalize (v : t) : t := divideScalar v (JS.or (length v) 1).

End Vector3.

(** ** The data model *)

(** One row of the [bodies] table of [init]. *)
Module Body.
Record t : Type := mk {
  name : string;
  r : R;
  size : R;
  color : R * R * R;
  speed : R;
  e : R
}.
End Body.

(** A [THREE.Mesh] as far as the frame loop touches it: its position, its
    rotation about the y axis, and the [timeUniform] of its material ([Some]
    of its [value] when the material has one, which is the Sun's case). *)
Module Mesh.
Record t : Type := mk {
  position : Vector3.t;
  rotation_y : R;
  timeUniform : option R
}.
End Mesh.

(** An entry of [this.planets]: [{ mesh, label, data, angle }]. The label is
    a sprite, kept as its position; [None] stands for a missing label, the
    case the guard [if (p.label)] of [animate] skips. *)
Module Planet.
Record t : Type := mk {
  mesh : Mesh.t;
  label : option Vector3.t;
  data : Body.t;
  angle : R
}.
End Planet.

(** The fields of [OrbitControls] that the simulation sets or reads. *)
Module OrbitControls.
Record t : Type := mk {
  target : Vector3.t;
  enableDamping : bool;
  minDistance : R;
  maxDistance : R
}.
End OrbitControls.

(** [List.map] with the index, for the indexed [for] loops of the source. *)
Fixpoint mapi_from {A B : Type} (f : nat -> A -> B) (i : nat) (l : list A) : list B :=
  match l with
  | [] => []
  | a :: l' => f i a :: mapi_from f (S i) l'
  end.

Definition mapi {A B : Type} (f : nat -> A -> B) (l : list A) : list B :=
  mapi_from f 0 l.

Fixpoint iter {A : Type} (n : nat) (f : A -> A) (a : A) : A :=
  match n with
  | O => a
  | S n' => f (iter n' f a)
  end.

(** ** The simulation *)

Module Simulation.

Record t : Type := mk {
  targetPos : Vector3.t;
  time : R;
  isPaused : bool;
  planets : list Planet.t;
  camera_position : Vector3.t;
  controls : OrbitControls.t;
  sunLight : option Vector3.t;   (* position of the point light *)
  frames : nat                   (* calls of [renderer.render] so far *)
}.

(** *** The bodies table and [init] *)

Definition bodies : list Body.t :=
  [ Body.mk "Sun"      0  5.0 (1.0, 0.6, 0.1) 0   0;
    Body.mk "Mercury" 10  0.4 (0.7, 0.7, 0.7) 4.0 0.206;
    Body.mk "Venus"   15  0.9 (0.9, 0.8, 0.6) 3.0 0.007;
    Body.mk "Earth"   20  1.0 (0.0, 0.4, 0.8) 2.4 0.017;
    Body.mk "Mars"    25  0.5 (1.0, 0.3, 0.2) 2.0 0.093;
    Body.mk "Jupiter" 35  2.5 (0.8, 0.7, 0.6) 1.3 0.049;
    Body.mk "Saturn"  45  2.1 (0.9, 0.8, 0.5) 0.9 0.056;
    Body.mk "Uranus"  55  1.5 (0.6, 0.8, 0.9) 0.6 0.046;
    Body.mk "Neptune" 65  1.4 (0.3, 0.4, 1.0) 0.5 0.010 ].

(** [createPlanetMaterial]: only the ['Sun'] case stores a [timeUniform],
    created as [uniform(0)]. *)
Definition createPlanetMaterial (planetName : string) : option R :=
  if String.eqb planetName "Sun" then Some 0 else None.

(** One turn of the loop "5. Create Meshes": the mesh and the label sprite
    are fresh objects at the origin, [data] is the table row itself and
    [angle] is [Math.random() * Math.PI * 2]. [random i] is the value
    [Math.random()] returns in turn [i]. Nothing of the row is checked. *)
Definition create_planet (random : nat -> R) (i : nat) (body : Body.t) : Planet.t :=
  Planet.mk
    (Mesh.mk Vector3.zero 0 (createPlanetMaterial (Body.name body)))
    (Some Vector3.zero)
    body
    (random i * PI * 2).

(** The loop of [init] over a table; [init] runs it on [bodies]. It has no
    [throw] and no validation, so it returns for every table. *)
Definition create_planets (table : list Body.t) (random : nat -> R)
  : JS.completion (list Planet.t) :=
  JS.Returns (mapi (create_planet random) table).

(** The simulation the constructor and [init] leave around the planets:
    target position, clock and pause flag of the constructor; camera at
    [(0, 60, 80)], orbit controls about the origin (the target a new
    [OrbitControls] has) with damping on and distance bounds [10] and
    [300], the point light at the origin, and nothing rendered yet. *)
Definition construct (ps : list Planet.t) : t :=
  mk Vector3.zero 0 false ps
     (Vector3.mk 0 60 80)
     (OrbitControls.mk Vector3.zero true 10 300)
     (Some Vector3.zero)
     0.

(** The constructor followed by [init], run on a table. *)
Definition init_with (table : list Body.t) (random : nat -> R) : JS.completion t :=
  match create_planets table random with
  | JS.Returns ps => JS.Returns (construct ps)
  | JS.Throws err => JS.Throws err
  end.

Definition init (random : nat -> R) : JS.completion t := init_with bodies random.

(** *** [updateInteraction] *)

Definition updateInteraction (isStopped : bool) (s : t) : t :=
  mk (targetPos s) (time s) isStopped (planets s) (camera_position s) (controls s)
     (match sunLight s with
      | Some _ => Some (Vector3.mk 0 0 0)
      | None => None
      end)
     (frames s).

(** *** [zoomIn] and [zoomOut] *)

(** [currentDist] of both methods. *)
Definition distance (s : t) : R :=
  Vector3.length (Vector3.sub (camera_position s) (OrbitControls.target (controls s))).

Definition with_camera_position (s : t) (p : Vector3.t) : t :=
  mk (targetPos s) (time s) (isPaused s) (planets s) p (controls s) (sunLight s) (frames s).

Definition zoomIn (s : t) : t :=
  let offset := Vector3.sub (camera_position s) (OrbitControls.target (controls s)) in
  let currentDist := Vector3.length offset in
  let newDist := Rmax (OrbitControls.minDistance (controls s)) (currentDist * 0.8) in
  let offset := Vector3.multiplyScalar (Vector3.normalize offset) newDist in
  with_camera_position s (Vector3.add (OrbitControls.target (controls s)) offset).

Definition zoomOut (s : t) : t :=
  let offset := Vector3.sub (camera_position s) (OrbitControls.target (controls s)) in
  let currentDist := Vector3.length offset in
  let newDist := Rmin (OrbitControls.maxDistance (controls s)) (currentDist * 1.25) in
  let offset := Vector3.multiplyScalar (Vector3.normalize offset) newDist in
  with_camera_position s (Vector3.add (OrbitControls.target (controls s)) offset).

(** *** [animate] *)

Section FrameLoop.

(** [this.controls.update()] belongs to the orbit-control collaborator of
    three.js: it applies the user's drag, wheel and damping to the camera.
    It is a parameter of the frame loop, whose properties hold for every
    such update. *)
Variable controls_update :
  OrbitControls.t -> Vector3.t -> OrbitControls.t * Vector3.t.

(** The label block that ends every turn of the loop of [animate]. *)
Definition update_label (p : Planet.t) : Planet.t :=
  match Planet.label p with
  | Some _ =>
      let l := Mesh.position (Planet.mesh p) in
      Planet.mk (Planet.mesh p)
        (Some (Vector3.mk (Vector3.x l)
                          (Vector3.y l + (Body.size (Planet.data p) + 2.0))
                          (Vector3.z l)))
        (Planet.data p) (Planet.angle p)
  | None => p
  end.

(** One turn of the loop of [animate], for [this.planets[i]]; [paused] and
    [now] are [this.isPaused] and [this.time] as the loop reads them. *)
Definition animate_planet (paused : bool) (now : R) (i : nat) (p : Planet.t)
  : Planet.t :=
  let m := Planet.mesh p in
  update_label
    (if Nat.eqb i 0 then
       Planet.mk
         (Mesh.mk (Vector3.mk 0 0 0) (Mesh.rotation_y m)
            (match Mesh.timeUniform m with
             | Some _ => Some now
             | None => None
             end))
         (Planet.label p) (Planet.data p) (Planet.angle p)
     else
       let angle :=
         if negb paused
         then Planet.angle p + Body.speed (Planet.data p) * 0.005
         else Planet.angle p in
       let rotation_y :=
         if negb paused then Mesh.rotation_y m + 0.01 else Mesh.rotation_y m in
       let a := Body.r (Planet.data p) in
       let e := JS.or (Body.e (Planet.data p)) 0 in
       let b := a * sqrt (1 - e * e) in
       let c := a * e in
       let x := cos angle * a - c in
       let z := sin angle * b in
       Planet.mk (Mesh.mk (Vector3.mk x 0 z) rotation_y (Mesh.timeUniform m))
         (Planet.label p) (Planet.data p) angle).

Definition animate (s : t) : t :=
  let (ctl, cam) := controls_update (controls s) (camera_position s) in
  let now := if negb (isPaused s) then time s + 0.01 else time s in
  mk (targetPos s) now (isPaused s)
     (mapi (animate_planet (isPaused s) now) (planets s))
     cam ctl (sunLight s) (S (frames s)).

End FrameLoop.

End Simulation.

(** ** The zoom steps on binary64 numbers

    The numbers of JavaScript are binary64 floating-point values. This
    module repeats the [Vector3] methods and the two zoom methods on the
    primitive floats, which are the binary64 values with the rounding of
    JavaScript (to nearest, ties to even) for [+], [-], [*], [/] and
    [Math.sqrt]. Nothing here is exact: every operation rounds. *)

Module Binary64.

Import PrimFloat.
Local Open Scope float_scope.
Set Warnings "-inexact-float".

(** [x || d] on numbers: [0], [-0] and [NaN] are the falsy numbers. *)
Definition or (x d : float) : float := if (x =? 0) || is_nan x then d else x.

(** [Math.max] and [Math.min] of two numbers: [NaN] when one of them is,
    else the larger or the smaller one (which of [0] and [-0] is returned
    is not followed). *)
Definition max (a b : float) : float :=
  if is_nan a || is_nan b then nan else if a <? b then b else a.

Definition min (a b : float) : float :=
  if is_nan a || is_nan b then nan else if b <? a then b else a.

Module Vector3.

Record t : Type := mk { x : float; y : float; z : float }.

Definition sub (a b : t) : t := mk (x a - x b) (y a - y b) (z a - z b).
Definition add (a b : t) : t := mk (x a + x b) (y a + y b) (z a + z b).
Definition length (v : t) : float := sqrt (x v * x v + y v * y v + z v * z v).
Definition multiplyScalar (v : t) (k : float) : t := mk (x v * k) (y v * k) (z v * k).
Definition divideScalar (v : t) (k : float) : t := multiplyScalar v (1 / k).
Definition normalize (v : t) : t := divideScalar v (or (length v) 1).

End Vector3.

(** What the zoom methods read and write: the camera position, and the
    target and the bounds of the orbit controls. *)
Record Camera : Type := mkCamera {
  position : Vector3.t;
  target : Vector3.t;
  minDistance : float;
  maxDistance : float
}.

(** [currentDist] of both methods. *)
Definition distance (c : Camera) : float :=
  Vector3.length (Vector3.sub (position c) (target c)).

(** [newDist] of [zoomIn] and of [zoomOut]. *)
Definition zoomIn_newDist (c : Camera) : float :=
  max (minDistance c) (distance c * 0.8).

Definition zoomOut_newDist (c : Camera) : float :=
  min (maxDistance c) (distance c * 1.25).

Definition zoomIn (c : Camera) : Camera :=
  let offset := Vector3.sub (position c) (target c) in
  let offset := Vector3.multiplyScalar (Vector3.normalize offset) (zoomIn_newDist c) in
  mkCamera (Vector3.add (target c) offset) (target c) (minDistance c) (maxDistance c).

Definition zoomOut (c : Camera) : Camera :=
  let offset := Vector3.sub (position c) (target c) in
  let offset := Vector3.multiplyScalar (Vector3.normalize offset) (zoomOut_newDist c) in
  mkCamera (Vector3.add (target c) offset) (target c) (minDistance c) (maxDistance c).

(** The camera as [init] leaves it: at [(0, 60, 80)], looking at the origin,
    between the distances [10] and [300]. *)
Definition initial : Camera :=
  mkCamera (Vector3.mk 0 60 80) (Vector3.mk 0 0 0) 10 300.

(** The camera after [n] clicks on Zoom In, and after [n] clicks on Zoom
    Out, from the initial one. *)
Definition after_zoomIn_clicks (n : nat) : Camera := iter n zoomIn initial.
Definition after_zoomOut_clicks (n : nat) : Camera := iter n zoomOut initial.

(** No click of a list of click counts leaves the camera at distance [d]. *)
Definition never_at (d : float) (clicks : list nat) : bool :=
  forallb (fun n => negb (distance (after_zoomIn_clicks n) =? d)) clicks.

Set Warnings "inexact-float".

End Binary64.

(** ** The page: [main.js] *)

Module Main.

(** The module-level state of [main.js]: the simulation, the [isPaused]
    flag of the Pause button, and whether the delayed hook that replaces
    [simulation.animate] has run. *)
Record t : Type := mk {
  simulation : Simulation.t;
  isPaused : bool;
  hooked : bool
}.

Inductive event : Type :=
| ClickZoomIn       (* click on btn-zoom-in *)
| ClickZoomOut      (* click on btn-zoom-out *)
| ClickStop         (* click on btn-stop *)
| HookTimeout       (* the [setTimeout(..., 100)] callback *)
| AnimationFrame.   (* one call of the renderer's animation loop *)

Section Events.

Variable controls_update :
  OrbitControls.t -> Vector3.t -> OrbitControls.t * Vector3.t.

Definition step (pg : t) (ev : event) : t :=
  match ev with
  | ClickZoomIn => mk (Simulation.zoomIn (simulation pg)) (isPaused pg) (hooked pg)
  | ClickZoomOut => mk (Simulation.zoomOut (simulation pg)) (isPaused pg) (hooked pg)
  | ClickStop => mk (simulation pg) (negb (isPaused pg)) (hooked pg)
  | HookTimeout => mk (simulation pg) (isPaused pg) true
  | AnimationFrame =>
      if hooked pg then
        mk (Simulation.animate controls_update
              (Simulation.updateInteraction (isPaused pg) (simulation pg)))
           (isPaused pg) (hooked pg)
      else
        mk (Simulation.animate controls_update (simulation pg))
           (isPaused pg) (hooked pg)
  end.

Definition run (pg : t) (evs : list event) : t := fold_left step evs pg.

End Events.

(** The page right after the module body of [main.js] has run. *)
Definition start (s : Simulation.t) : t := mk s false false.

End Main.

(** ** The scenery [init] builds: starfield, orbit lines, rings *)

Module Scenery.

(** One star of the starfield: its three coordinates, its size and its
    colour, as the loop writes them into [starPos], [starSizes] and
    [starColors] (the rounding of [Float32Array] is not modelled). *)
Record Star : Type := mkStar {
  starPos : Vector3.t;
  starSize : R;
  starColor : R * R * R
}.

(** One turn of the starfield loop. [random k] is the value the [k]-th call
    of [Math.random()] returns; the turn starts with call [k] and gives back
    the number of the next call: three calls for the position, two for the
    size, one for the colour type and two more for a blue or a yellow
    star. *)
Definition create_star (random : nat -> R) (k : nat) : Star * nat :=
  let px := (random k - 0.5) * 1000 in
  let py := (random (k + 1)%nat - 0.5) * 1000 in
  let pz := (random (k + 2)%nat - 0.5) * 1000 in
  let size :=
    if Rlt_dec (random (k + 3)%nat) 0.9
    then random (k + 4)%nat * 0.6 + 0.3
    else random (k + 4)%nat * 1.5 + 0.8 in
  let colorType := random (k + 5)%nat in
  if Rlt_dec colorType 0.75 then
    (mkStar (Vector3.mk px py pz) size (1.0, 1.0, 1.0), (k + 6)%nat)
  else if Rlt_dec colorType 0.9 then
    (mkStar (Vector3.mk px py pz) size
       (0.7 + random (k + 6)%nat * 0.3, 0.8 + random (k + 7)%nat * 0.2, 1.0),
     (k + 8)%nat)
  else
    (mkStar (Vector3.mk px py pz) size
       (1.0, 0.8 + random (k + 6)%nat * 0.2, 0.6 + random (k + 7)%nat * 0.2),
     (k + 8)%nat).

(** The starfield loop, [starCount] turns from call [k] on. *)
Fixpoint create_stars (random : nat -> R) (starCount : nat) (k : nat)
  : list Star * nat :=
  match starCount with
  | O => ([], k)
  | S n =>
      let (star, k1) := create_star random k in
      let (rest, k2) := create_stars random n k1 in
      (star :: rest, k2)
  end.

(** three.js [EllipseCurve.getPoint(t)] for a curve from angle [0] to
    [2 * Math.PI], not clockwise and not rotated, as [init] builds it: the
    point at angle [t * 2 pi]. *)
Definition EllipseCurve_getPoint (aX aY xRadius yRadius t : R) : R * R :=
  let angle := 0 + t * (2 * PI - 0) in
  (aX + xRadius * cos angle, aY + yRadius * sin angle).

(** three.js [Curve.getPoints(divisions)]: the points at
    [d / divisions] for [d = 0 .. divisions]. *)
Definition getPoints (divisions : nat) (getPoint : R -> R * R) : list (R * R) :=
  map (fun d => getPoint (INR d / INR divisions)) (seq 0 (S divisions)).

(** The rotation of an object or a geometry about the x axis by [theta]. *)
Definition rotateX (theta : R) (v : Vector3.t) : Vector3.t :=
  Vector3.mk (Vector3.x v)
             (Vector3.y v * cos theta - Vector3.z v * sin theta)
             (Vector3.y v * sin theta + Vector3.z v * cos theta).

(** The curve of the orbit line where the scene shows it: the point of the
    [EllipseCurve] of a body at parameter [t], put into the plane [z = 0]
    and turned with the line by [-Math.PI / 2] about x. *)
Definition orbit_curve (body : Body.t) (t : R) : Vector3.t :=
  let a := Body.r body in
  let e := JS.or (Body.e body) 0 in
  let b := a * sqrt (1 - e * e) in
  let c := a * e in
  let xy := EllipseCurve_getPoint (- c) 0 a b t in
  rotateX (- PI / 2) (Vector3.mk (fst xy) (snd xy) 0).

(** The orbit line [init] adds for a body other than the Sun: 129 points of
    the ellipse with centre [(-c, 0)] and radii [a], [b], put into a
    geometry with [z = 0], on a line rotated by [-Math.PI / 2] about x. The
    result is the list of the points where the scene shows them. *)
Definition orbit_line (body : Body.t) : list Vector3.t :=
  let a := Body.r body in
  let e := JS.or (Body.e body) 0 in
  let b := a * sqrt (1 - e * e) in
  let c := a * e in
  map (fun xy => rotateX (- PI / 2) (Vector3.mk (fst xy) (snd xy) 0))
      (getPoints 128 (EllipseCurve_getPoint (- c) 0 a b)).

(** The colour the ring loop pushes for a vertex whose position attribute
    reads [x] and [y], for a ringed body of size [size]. The loop divides by
    [body.size * 0.9]: for a size of [0] the quotient is infinite or [NaN],
    its sine is [NaN], and so are the three numbers pushed. [None] stands
    for that colour of three [NaN]s. *)
Definition ring_color (size x y : R) : option (R * R * R) :=
  let distance := sqrt (x * x + y * y) in
  if Req_dec_T (size * 0.9) 0 then None
  else
    let normalized := (distance - size * 1.4) / (size * 0.9) in
    let bandNoise := sin (normalized * 15) * 0.5 + 0.5 in
    let r := 0.85 + bandNoise * 0.15 in
    let g := 0.75 + bandNoise * 0.15 in
    let b := 0.55 + bandNoise * 0.1 in
    Some (r, g, b).

(** The colour of a vertex of the ring geometry. [RingGeometry] puts its
    vertices in the plane [z = 0]; [ringGeo.rotateX(-Math.PI / 2)] has
    turned them before the loop reads [getX] and [getY]. *)
Definition ring_vertex_color (size : R) (vx vy : R) : option (R * R * R) :=
  let v := rotateX (- PI / 2) (Vector3.mk vx vy 0) in
  ring_color size (Vector3.x v) (Vector3.y v).

End Scenery.

(** ** The shader helper [cross] *)

Module TSL.

(** [cross]: the node function at the end of the file, read as the vector
    it makes the shader compute from two vectors. *)
Definition cross (a b : Vector3.t) : Vector3.t :=
  Vector3.mk
    (Vector3.y a * Vector3.z b - Vector3.z a * Vector3.y b)
    (Vector3.z a * Vector3.x b - Vector3.x a * Vector3.z b)
    (Vector3.x a * Vector3.y b - Vector3.y a * Vector3.x b).

End TSL.

(** ** Labels and languages: [setLanguage] *)

Module Labels.

(** The simulation together with the two things [setLanguage] writes:
    [this.currentLang], and for every entry of [this.planets], in order,
    the text on the texture of its label ([createLabelTexture] draws the
    text it is given; the texture is kept as that text). *)
Record t : Type := mk {
  simulation : Simulation.t;
  currentLang : string;
  label_texts : list string
}.

(** [this.translations]: the object of each language, as its list of
    entries; [None] for a language the object does not have. Only the keys
    written in the source are modelled, not what a JavaScript object
    inherits. *)
Definition translations (lang : string) : option (list (string * string)) :=
  if String.eqb lang "en" then
    Some [ ("Sun", "Sun"); ("Mercury", "Mercury"); ("Venus", "Venus");
           ("Earth", "Earth"); ("Mars", "Mars"); ("Jupiter", "Jupiter");
           ("Saturn", "Saturn"); ("Uranus", "Uranus"); ("Neptune", "Neptune") ]%string
  else if String.eqb lang "zh" then
    Some [ ("Sun", "太阳"); ("Mercury", "水星"); ("Venus", "金星");
           ("Earth", "地球"); ("Mars", "火星"); ("Jupiter", "木星");
           ("Saturn", "土星"); ("Uranus", "天王星"); ("Neptune", "海王星") ]%string
  else None.

Fixpoint lookup (key : string) (entries : list (string * string)) : option string :=
  match entries with
  | [] => None
  | (k, v) :: rest => if String.eqb k key then Some v else lookup key rest
  end.

(** [this.translations[lang][name] || name], for a language the object
    has: a missing entry and the empty string give the name itself. This is
    what JavaScript does for every name that is not a key all objects
    inherit (such as [constructor] or [toString]), and so for the nine names
    of the table of [init]; the properties below are stated for these. *)
Definition translatedName (entries : list (string * string)) (name : string) : string :=
  match lookup name entries with
  | Some v => if String.eqb v EmptyString then name else v
  | None => name
  end.

(** The constructor and [init]: language ['en'], every label drawn with
    [body.name]. *)
Definition construct (s : Simulation.t) : t :=
  mk s "en" (map (fun p => Body.name (Planet.data p)) (Simulation.planets s)).

Definition has_labelb (p : Planet.t) : bool :=
  match Planet.label p with
  | Some _ => true
  | None => false
  end.

(** [setLanguage(lang)]. The early return keeps everything for a language
    other than ['en'] and ['zh']. The loop reads [p.label.material] with no
    guard, so a planet without a label makes it throw a [TypeError] (what
    the half-done loop leaves behind is not kept). *)
Definition setLanguage (lang : string) (s : t) : JS.completion t :=
  if negb (String.eqb lang "en") && negb (String.eqb lang "zh") then JS.Returns s
  else
    match translations lang with
    | None => JS.Throws JS.OtherError
    | Some entries =>
        if forallb has_labelb (Simulation.planets (simulation s)) then
          JS.Returns
            (mk (simulation s) lang
                (map (fun p => translatedName entries (Body.name (Planet.data p)))
                     (Simulation.planets (simulation s))))
        else JS.Throws JS.OtherError
    end.

End Labels.

(** ** The whole page: [main.js] with its texts and its language button *)

Module Page.

Local Open Scope string_scope.

(** An entry of [uiTranslations]. *)
Record UiText : Type := mkUiText {
  title : string;
  subtitle : string;
  controls : string;
  zoomIn : string;
  zoomOut : string;
  pause : string;
  resume : string;
  hint : string;
  langBtn : string
}.

(** [uiTranslations[lang]]; [None] is [undefined]. *)
Definition uiTranslations (lang : string) : option UiText :=
  if String.eqb lang "en" then
    Some (mkUiText "Solar System" "Explore the planets with mouse and controls."
            "Controls" "Zoom In" "Zoom Out" "Pause" "Resume"
            "Use mouse to orbit, scroll to zoom" "中文")
  else if String.eqb lang "zh" then
    Some (mkUiText "太阳系" "使用鼠标和控制按钮探索行星"
            "控制" "放大" "缩小" "暂停" "继续"
            "使用鼠标旋转视角，滚轮缩放" "English")
  else None.

(** A button: its [textContent] and its [style.background]. *)
Record Button : Type := mkButton {
  textContent : string;
  background : string
}.

(** What [document.getElementById] found: [None] for an element the
    document does not have, else the text of the element or the button. *)
Record Dom : Type := mkDom {
  titleEl : option string;
  subtitleEl : option string;
  controlsTitleEl : option string;
  hintEl : option string;
  btnZoomIn : option Button;
  btnZoomOut : option Button;
  btnStop : option Button;
  btnLang : option Button
}.

(** The state of the page: the simulation with its labels, the variables
    [isPaused] and [currentLang] of [main.js], whether the delayed hook has
    run, and the elements. *)
Record t : Type := mk {
  scene : Labels.t;
  isPaused : bool;
  hooked : bool;
  currentLang : string;
  dom : Dom
}.

Inductive event : Type :=
| Core (ev : Main.event)   (* the events of [Main] *)
| ClickLang                (* click on btn-lang *)
| ZoomInFlashEnd           (* the 200 ms timer of the Zoom In handler *)
| ZoomOutFlashEnd.         (* the 200 ms timer of the Zoom Out handler *)

(** [if (el) el.textContent = v] *)
Definition set_text (el : option string) (v : string) : option string :=
  match el with
  | Some _ => Some v
  | None => None
  end.

Definition set_button_text (b : option Button) (v : string) : option Button :=
  match b with
  | Some b => Some (mkButton v (background b))
  | None => None
  end.

Definition set_background (b : option Button) (v : string) : option Button :=
  match b with
  | Some b => Some (mkButton (textContent b) v)
  | None => None
  end.

Definition present {A : Type} (el : option A) : bool :=
  match el with
  | Some _ => true
  | None => false
  end.

(** [updateUILanguage()]. With [uiTranslations[currentLang]] undefined the
    first element that exists makes it throw. *)
Definition updateUILanguage (lang : string) (paused : bool) (d : Dom)
  : JS.completion Dom :=
  match uiTranslations lang with
  | Some t =>
      JS.Returns
        (mkDom (set_text (titleEl d) (title t))
               (set_text (subtitleEl d) (subtitle t))
               (set_text (controlsTitleEl d) (controls t))
               (set_text (hintEl d) (hint t))
               (set_button_text (btnZoomIn d) (zoomIn t))
               (set_button_text (btnZoomOut d) (zoomOut t))
               (set_button_text (btnStop d) (if paused then resume t else pause t))
               (set_button_text (btnLang d) (langBtn t)))
  | None =>
      if present (titleEl d) || present (subtitleEl d) || present (controlsTitleEl d)
         || present (hintEl d) || present (btnZoomIn d) || present (btnZoomOut d)
         || present (btnStop d) || present (btnLang d)
      then JS.Throws JS.OtherError
      else JS.Returns d
  end.

Definition with_dom (pg : t) (d : Dom) : t :=
  mk (scene pg) (isPaused pg) (hooked pg) (currentLang pg) d.

Definition with_simulation (pg : t) (s : Simulation.t) : t :=
  mk (Labels.mk s (Labels.currentLang (scene pg)) (Labels.label_texts (scene pg)))
     (isPaused pg) (hooked pg) (currentLang pg) (dom pg).

Section Events.

Variable controls_update :
  OrbitControls.t -> Vector3.t -> OrbitControls.t * Vector3.t.

(** One event. A listener is added only for a button that exists, so a
    click on a missing button does nothing. *)
Definition step (pg : t) (ev : event) : JS.completion t :=
  let d := dom pg in
  match ev with
  | Core Main.ClickZoomIn =>
      match btnZoomIn d with
      | Some _ =>
          JS.Returns
            (with_dom
               (with_simulation pg (Simulation.zoomIn (Labels.simulation (scene pg))))
               (mkDom (titleEl d) (subtitleEl d) (controlsTitleEl d) (hintEl d)
                      (set_background (btnZoomIn d) "#4CAF50") (btnZoomOut d)
                      (btnStop d) (btnLang d)))
      | None => JS.Returns pg
      end
  | Core Main.ClickZoomOut =>
      match btnZoomOut d with
      | Some _ =>
          JS.Returns
            (with_dom
               (with_simulation pg (Simulation.zoomOut (Labels.simulation (scene pg))))
               (mkDom (titleEl d) (subtitleEl d) (controlsTitleEl d) (hintEl d)
                      (btnZoomIn d) (set_background (btnZoomOut d) "#4CAF50")
                      (btnStop d) (btnLang d)))
      | None => JS.Returns pg
      end
  | ZoomInFlashEnd =>
      JS.Returns
        (with_dom pg
           (mkDom (titleEl d) (subtitleEl d) (controlsTitleEl d) (hintEl d)
                  (set_background (btnZoomIn d) EmptyString) (btnZoomOut d)
                  (btnStop d) (btnLang d)))
  | ZoomOutFlashEnd =>
      JS.Returns
        (with_dom pg
           (mkDom (titleEl d) (subtitleEl d) (controlsTitleEl d) (hintEl d)
                  (btnZoomIn d) (set_background (btnZoomOut d) EmptyString)
                  (btnStop d) (btnLang d)))
  | Core Main.ClickStop =>
      match btnStop d with
      | Some _ =>
          let paused := negb (isPaused pg) in
          match uiTranslations (currentLang pg) with
          | Some t =>
              JS.Returns
                (mk (scene pg) paused (hooked pg) (currentLang pg)
                    (mkDom (titleEl d) (subtitleEl d) (controlsTitleEl d) (hintEl d)
                           (btnZoomIn d) (btnZoomOut d)
                           (Some (mkButton (if paused then resume t else pause t)
                                           (if paused then "#f44336" else EmptyString)))
                           (btnLang d)))
          | None => JS.Throws JS.OtherError
          end
      | None => JS.Returns pg
      end
  | ClickLang =>
      match btnLang d with
      | Some _ =>
          let lang := if String.eqb (currentLang pg) "en" then "zh" else "en" in
          match updateUILanguage lang (isPaused pg) d with
          | JS.Returns d' =>
              match Labels.setLanguage lang (scene pg) with
              | JS.Returns sc => JS.Returns (mk sc (isPaused pg) (hooked pg) lang d')
              | JS.Throws err => JS.Throws err
              end
          | JS.Throws err => JS.Throws err
          end
      | None => JS.Returns pg
      end
  | Core Main.HookTimeout => JS.Returns (mk (scene pg) (isPaused pg) true (currentLang pg) d)
  | Core Main.AnimationFrame =>
      JS.Returns
        (with_simulation pg
           (Main.simulation
              (Main.step controls_update
                 (Main.mk (Labels.simulation (scene pg)) (isPaused pg) (hooked pg))
                 Main.AnimationFrame)))
  end.

(** The events of a list in turn; the run is given up at the first error
    a handler throws. *)
Fixpoint run (pg : t) (evs : list event) : JS.completion t :=
  match evs with
  | [] => JS.Returns pg
  | ev :: rest =>
      match step pg ev with
      | JS.Returns pg' => run pg' rest
      | JS.Throws err => JS.Throws err
      end
  end.

End Events.

(** The page once the module body of [main.js] has run on a document [d]:
    nothing paused, language ['en'], the hook not yet in place. *)
Definition start (s : Simulation.t) (d : Dom) : t :=
  mk (Labels.construct s) false false "en" d.

(** The part of the page [Main] keeps. *)
Definition core (pg : t) : Main.t :=
  Main.mk (Labels.simulation (scene pg)) (isPaused pg) (hooked pg).

End Page.

(** ** Vocabulary of the properties *)

(** The table the specification asks for: every eccentricity in [[0, 1)]
    and no name used twice. *)
Definition well_formed_table (table : list Body.t) : Prop :=
  Forall (fun b => 0 <= Body.e b < 1) table /\ NoDup (map Body.name table).

Definition has_label (p : Planet.t) : Prop := Planet.label p <> None.

(** The registry as [init] left it: the rows of the table in order, and a
    label on every body. Only [init] writes [this.planets], [data] and
    [label]; the loop of [animate] writes inside the mesh, the label
    position and the angle. *)
Definition registry_intact (s : Simulation.t) : Prop :=
  map Planet.data (Simulation.planets s) = Simulation.bodies
  /\ Forall has_label (Simulation.planets s).

(** The camera distance lies between the bounds [init] configures. *)
Definition within_bounds (s : Simulation.t) : Prop :=
  OrbitControls.minDistance (Simulation.controls s) = 10
  /\ OrbitControls.maxDistance (Simulation.controls s) = 300
  /\ 10 <= Simulation.distance s <= 300.

(** The simulation a frame of the page hands to [animate]. *)
Definition polled (pg : Main.t) : Simulation.t :=
  if Main.hooked pg
  then Simulation.updateInteraction (Main.isPaused pg) (Main.simulation pg)
  else Main.simulation pg.

(** The number of frames of an event list that advance the simulation:
    a frame advances it unless the flag [animate] reads is set, which is the
    Pause button once the hook is in place and the simulation's own flag
    before. *)
Fixpoint running_frames (uiPaused hooked simPaused : bool) (evs : list Main.event)
  : nat :=
  match evs with
  | [] => 0
  | Main.ClickStop :: rest => running_frames (negb uiPaused) hooked simPaused rest
  | Main.HookTimeout :: rest => running_frames uiPaused true simPaused rest
  | Main.AnimationFrame :: rest =>
      let paused := if hooked then uiPaused else simPaused in
      ((if paused then 0 else 1) + running_frames uiPaused hooked paused rest)%nat
  | _ :: rest => running_frames uiPaused hooked simPaused rest
  end.

Definition is_frame (ev : Main.event) : bool :=
  match ev with
  | Main.AnimationFrame => true
  | _ => false
  end.

Definition is_zoom (ev : Main.event) : bool :=
  match ev with
  | Main.ClickZoomIn | Main.ClickZoomOut => true
  | _ => false
  end.

(** The events that reach the camera: zoom clicks and frames. *)
Definition moves_camera (ev : Main.event) : bool := is_zoom ev || is_frame ev.

(** Two pages that differ at most in where the camera is. *)
Definition same_bodies (pg1 pg2 : Main.t) : Prop :=
  Main.isPaused pg1 = Main.isPaused pg2
  /\ Main.hooked pg1 = Main.hooked pg2
  /\ Simulation.isPaused (Main.simulation pg1) = Simulation.isPaused (Main.simulation pg2)
  /\ Simulation.time (Main.simulation pg1) = Simulation.time (Main.simulation pg2)
  /\ Simulation.planets (Main.simulation pg1) = Simulation.planets (Main.simulation pg2)
  /\ Simulation.frames (Main.simulation pg1) = Simulation.frames (Main.simulation pg2).

(** Two pages with the camera and the orbit controls alike. *)
Definition same_view (pg1 pg2 : Main.t) : Prop :=
  Simulation.controls (Main.simulation pg1) = Simulation.controls (Main.simulation pg2)
  /\ Simulation.camera_position (Main.simulation pg1)
     = Simulation.camera_position (Main.simulation pg2).

(** The shader clock is wired by name: a body has a [timeUniform] exactly
    when its row is named ['Sun']. *)
Definition shader_clock_by_name (p : Planet.t) : Prop :=
  Page.present (Mesh.timeUniform (Planet.mesh p))
  = String.eqb (Body.name (Planet.data p)) "Sun".



(** The Stop button, when the document has one, says Resume on red while
    paused and Pause on no colour while running, in the page's language. *)
Definition stop_button_in_step (pg : Page.t) : Prop :=
  match Page.btnStop (Page.dom pg) with
  | None => True
  | Some b =>
      exists t : Page.UiText,
        Page.uiTranslations (Page.currentLang pg) = Some t
        /\ Page.textContent b
           = (if Page.isPaused pg then Page.resume t else Page.pause t)
        /\ Page.background b
           = (if Page.isPaused pg then "#f44336"%string else EmptyString)
  end.

(** What an event of the whole page amounts to for the simulation and the
    pause flag, on a document [d]: a click counts when its button exists,
    the hook and the frames always, the language button and the flash
    timers never. *)
Definition reaches_core (d : Page.Dom) (ev : Page.event) : list Main.event :=
  match ev with
  | Page.Core Main.ClickZoomIn =>
      if Page.present (Page.btnZoomIn d) then [Main.ClickZoomIn] else []
  | Page.Core Main.ClickZoomOut =>
      if Page.present (Page.btnZoomOut d) then [Main.ClickZoomOut] else []
  | Page.Core Main.ClickStop =>
      if Page.present (Page.btnStop d) then [Main.ClickStop] else []
  | Page.Core Main.HookTimeout => [Main.HookTimeout]
  | Page.Core Main.AnimationFrame => [Main.AnimationFrame]
  | _ => []
  end.

(** Two documents with the same buttons. *)
Definition same_buttons (d1 d2 : Page.Dom) : Prop :=
  Page.present (Page.btnZoomIn d1) = Page.present (Page.btnZoomIn d2)
  /\ Page.present (Page.btnZoomOut d1) = Page.present (Page.btnZoomOut d2)
  /\ Page.present (Page.btnStop d1) = Page.present (Page.btnStop d2).

(** The scalar product, to say what [cross] is perpendicular to. *)
Definition dot (a b : Vector3.t) : R :=
  Vector3.x a * Vector3.x b + Vector3.y a * Vector3.y b + Vector3.z a * Vector3.z b.

(** ** Concrete inputs *)

(** Orbit controls with no input from the user: the camera stays put. *)
Definition idle_controls (c : OrbitControls.t) (p : Vector3.t)
  : OrbitControls.t * Vector3.t := (c, p).

(** [Math.random()] returning [0] every time: every body starts at angle 0. *)
Definition no_random : nat -> R := fun _ => 0.

(** The simulation [new Simulation(canvas)] builds with [no_random]. *)
Definition first_simulation : Simulation.t :=
  Simulation.construct (mapi (Simulation.create_planet no_random) Simulation.bodies).

(** Random draws that start every body [0.02] short of a quarter turn, the
    angle Mercury covers in one tick. *)
Definition quarter_random : nat -> R := fun _ => (PI / 2 - 4.0 * 0.005) / (PI * 2).

Definition quarter_simulation : Simulation.t :=
  Simulation.construct (mapi (Simulation.create_planet quarter_random) Simulation.bodies).

(** The first simulation with the Pause button pressed and polled. *)
Definition paused_simulation : Simulation.t :=
  Simulation.updateInteraction true first_simulation.

(** Orbit controls that do nothing but keep the camera between the two
    distances: a camera on the target is put [minDistance] in front of it,
    any other one stays on its line from the target, at its distance
    clamped to the bounds. *)
Definition clamping_controls (c : OrbitControls.t) (p : Vector3.t)
  : OrbitControls.t * Vector3.t :=
  let offset := Vector3.sub p (OrbitControls.target c) in
  let d := Vector3.length offset in
  if Req_dec_T d 0 then
    (c, Vector3.add (OrbitControls.target c)
          (Vector3.mk 0 0 (OrbitControls.minDistance c)))
  else
    (c, Vector3.add (OrbitControls.target c)
          (Vector3.multiplyScalar (Vector3.normalize offset)
             (Rmax (OrbitControls.minDistance c)
                   (Rmin (OrbitControls.maxDistance c) d)))).

(** A document with every element the page looks up, none of them with
    any text or colour yet. *)
Definition full_document : Page.Dom :=
  Page.mkDom (Some EmptyString) (Some EmptyString) (Some EmptyString) (Some EmptyString)
    (Some (Page.mkButton EmptyString EmptyString))
    (Some (Page.mkButton EmptyString EmptyString))
    (Some (Page.mkButton EmptyString EmptyString))
    (Some (Page.mkButton EmptyString EmptyString)).

(** * Properties *)

(** ** Vectors *)

Section VectorFacts.

Lemma or_nonzero (x d : R) : x <> 0 -> JS.or x d = x.
Proof. intros H. unfold JS.or. destruct (Req_dec_T x 0); [contradiction | reflexivity]. Qed.

Lemma or_zero (d : R) : JS.or 0 d = d.
Proof. unfold JS.or. destruct (Req_dec_T 0 0); [reflexivity | contradiction]. Qed.

(** [e || 0] is [e] for every number. *)
Lemma or_self_zero (x : R) : JS.or x 0 = x.
Proof. unfold JS.or. destruct (Req_dec_T x 0); congruence. Qed.

Lemma sum_squares_nonneg (a b c : R) : 0 <= a * a + b * b + c * c.
Proof. nra. Qed.

Lemma length_nonneg (v : Vector3.t) : 0 <= Vector3.length v.
Proof. apply sqrt_pos. Qed.

Lemma length_multiplyScalar (v : Vector3.t) (k : R) :
  Vector3.length (Vector3.multiplyScalar v k) = Rabs k * Vector3.length v.
Proof.
  destruct v as [a b c]. unfold Vector3.length, Vector3.multiplyScalar. simpl.
  replace (a * k * (a * k) + b * k * (b * k) + c * k * (c * k))
    with (Rsqr k * (a * a + b * b + c * c)) by (unfold Rsqr; ring).
  rewrite sqrt_mult; [ | apply Rle_0_sqr | apply sum_squares_nonneg ].
  rewrite sqrt_Rsqr_abs. reflexivity.
Qed.

Lemma length_zero_inv (v : Vector3.t) : Vector3.length v = 0 -> v = Vector3.zero.
Proof.
  destruct v as [a b c]. unfold Vector3.length. simpl. intros H.
  apply sqrt_eq_0 in H; [ | apply sum_squares_nonneg ].
  assert (a = 0) by nra. assert (b = 0) by nra. assert (c = 0) by nra.
  subst. reflexivity.
Qed.

Lemma length_zero : Vector3.length Vector3.zero = 0.
Proof.
  unfold Vector3.length, Vector3.zero. simpl.
  replace (0 * 0 + 0 * 0 + 0 * 0) with 0 by ring. apply sqrt_0.
Qed.

Lemma sub_eq_zero (a b : Vector3.t) : Vector3.sub a b = Vector3.zero -> a = b.
Proof.
  destruct a as [a1 a2 a3], b as [b1 b2 b3]. unfold Vector3.sub, Vector3.zero. simpl.
  intros H. injection H as H1 H2 H3. f_equal; lra.
Qed.

Lemma sub_add_cancel (a o : Vector3.t) : Vector3.sub (Vector3.add a o) a = o.
Proof.
  destruct a as [a1 a2 a3], o as [o1 o2 o3]. unfold Vector3.sub, Vector3.add. simpl.
  f_equal; ring.
Qed.

(** A vector that is not zero, normalized and scaled by [k], is the
    vector scaled by [k / length]. *)
Lemma normalize_scaled (v : Vector3.t) (k : R) :
  Vector3.length v <> 0 ->
  Vector3.multiplyScalar (Vector3.normalize v) k
  = Vector3.multiplyScalar v (k / Vector3.length v).
Proof.
  intros H. unfold Vector3.normalize, Vector3.divideScalar.
  rewrite (or_nonzero _ 1 H).
  destruct v as [a b c]. unfold Vector3.multiplyScalar. simpl.
  f_equal; field; exact H.
Qed.

(** The zero vector stays the zero vector. *)
Lemma normalize_scaled_zero (k : R) :
  Vector3.multiplyScalar (Vector3.normalize Vector3.zero) k = Vector3.zero.
Proof.
  unfold Vector3.normalize, Vector3.divideScalar. rewrite length_zero, or_zero.
  unfold Vector3.multiplyScalar, Vector3.zero. simpl. f_equal; field.
Qed.

Lemma length_normalize_scaled (v : Vector3.t) (k : R) :
  Vector3.length v <> 0 -> 0 <= k ->
  Vector3.length (Vector3.multiplyScalar (Vector3.normalize v) k) = k.
Proof.
  intros H Hk. rewrite (normalize_scaled v k H), length_multiplyScalar.
  pose proof (length_nonneg v) as Hl.
  assert (Hpos : 0 < Vector3.length v) by lra.
  rewrite Rabs_right.
  - field. exact H.
  - apply Rle_ge. unfold Rdiv. apply Rmult_le_pos; [exact Hk | ].
    left. apply Rinv_0_lt_compat. exact Hpos.
Qed.

End VectorFacts.

(** ** One zoom step *)

Section ZoomStep.

Local Abbreviation target s := (OrbitControls.target (Simulation.controls s)).
Local Abbreviation minDistance s := (OrbitControls.minDistance (Simulation.controls s)).
Local Abbreviation maxDistance s := (OrbitControls.maxDistance (Simulation.controls s)).

Lemma distance_nonneg (s : Simulation.t) : 0 <= Simulation.distance s.
Proof. apply length_nonneg. Qed.

(** The camera is away from the target exactly when its distance is positive. *)
Lemma distance_pos (s : Simulation.t) :
  Simulation.camera_position s <> target s -> 0 < Simulation.distance s.
Proof.
  intros H. pose proof (distance_nonneg s) as Hn.
  destruct (Req_dec_T (Simulation.distance s) 0) as [Hz | Hz]; [ | lra ].
  exfalso. apply H. apply sub_eq_zero. apply length_zero_inv. exact Hz.
Qed.

Lemma distance_pos_inv (s : Simulation.t) :
  0 < Simulation.distance s -> Simulation.camera_position s <> target s.
Proof.
  intros H Heq. unfold Simulation.distance in H. rewrite Heq in H.
  destruct (target s) as [a b c]. unfold Vector3.sub, Vector3.length in H. simpl in H.
  replace ((a - a) * (a - a) + (b - b) * (b - b) + (c - c) * (c - c)) with 0 in H by ring.
  rewrite sqrt_0 in H. lra.
Qed.

Lemma controls_zoomIn (s : Simulation.t) :
  Simulation.controls (Simulation.zoomIn s) = Simulation.controls s.
Proof. reflexivity. Qed.

Lemma controls_zoomOut (s : Simulation.t) :
  Simulation.controls (Simulation.zoomOut s) = Simulation.controls s.
Proof. reflexivity. Qed.

Lemma distance_zoomIn (s : Simulation.t) :
  0 < Simulation.distance s ->
  Simulation.distance (Simulation.zoomIn s)
  = Rmax (minDistance s) (Simulation.distance s * 0.8).
Proof.
  intros Hd. unfold Simulation.zoomIn, Simulation.distance at 1. simpl.
  rewrite sub_add_cancel. fold (Simulation.distance s).
  apply length_normalize_scaled.
  - fold (Simulation.distance s). lra.
  - apply Rle_trans with (Simulation.distance s * 0.8); [ lra | apply Rmax_r ].
Qed.

Lemma distance_zoomOut (s : Simulation.t) :
  0 < Simulation.distance s -> 0 <= maxDistance s ->
  Simulation.distance (Simulation.zoomOut s)
  = Rmin (maxDistance s) (Simulation.distance s * 1.25).
Proof.
  intros Hd Hmax. unfold Simulation.zoomOut, Simulation.distance at 1. simpl.
  rewrite sub_add_cancel. fold (Simulation.distance s).
  apply length_normalize_scaled.
  - fold (Simulation.distance s). lra.
  - apply Rmin_glb; lra.
Qed.

(** Both steps move the camera along the line from the target through its
    old place: the offset is scaled by [newDist / currentDist]. *)
Lemma position_zoomIn (s : Simulation.t) :
  0 < Simulation.distance s ->
  Simulation.camera_position (Simulation.zoomIn s)
  = Vector3.add (target s)
      (Vector3.multiplyScalar
         (Vector3.sub (Simulation.camera_position s) (target s))
         (Rmax (minDistance s) (Simulation.distance s * 0.8) / Simulation.distance s)).
Proof.
  intros Hd. unfold Simulation.zoomIn. simpl. f_equal.
  apply normalize_scaled. fold (Simulation.distance s). lra.
Qed.

Lemma position_zoomOut (s : Simulation.t) :
  0 < Simulation.distance s ->
  Simulation.camera_position (Simulation.zoomOut s)
  = Vector3.add (target s)
      (Vector3.multiplyScalar
         (Vector3.sub (Simulation.camera_position s) (target s))
         (Rmin (maxDistance s) (Simulation.distance s * 1.25) / Simulation.distance s)).
Proof.
  intros Hd. unfold Simulation.zoomOut. simpl. f_equal.
  apply normalize_scaled. fold (Simulation.distance s). lra.
Qed.

(** A camera that sits on the target has no view direction: its offset is
    the zero vector, which [normalize] leaves as it is, so both steps leave
    the camera on the target. *)
Lemma zoomIn_at_target (s : Simulation.t) :
  Simulation.camera_position s = target s ->
  Simulation.camera_position (Simulation.zoomIn s) = target s.
Proof.
  intros H. unfold Simulation.zoomIn. simpl. rewrite H.
  replace (Vector3.sub (target s) (target s)) with Vector3.zero.
  - rewrite normalize_scaled_zero.
    destruct (target s) as [a b c]. unfold Vector3.add, Vector3.zero. simpl.
    f_equal; ring.
  - destruct (target s) as [a b c]. unfold Vector3.sub, Vector3.zero. simpl.
    f_equal; ring.
Qed.

Lemma zoomOut_at_target (s : Simulation.t) :
  Simulation.camera_position s = target s ->
  Simulation.camera_position (Simulation.zoomOut s) = target s.
Proof.
  intros H. unfold Simulation.zoomOut. simpl. rewrite H.
  replace (Vector3.sub (target s) (target s)) with Vector3.zero.
  - rewrite normalize_scaled_zero.
    destruct (target s) as [a b c]. unfold Vector3.add, Vector3.zero. simpl.
    f_equal; ring.
  - destruct (target s) as [a b c]. unfold Vector3.sub, Vector3.zero. simpl.
    f_equal; ring.
Qed.

Lemma distance_at_target (s : Simulation.t) :
  Simulation.camera_position s = target s -> Simulation.distance s = 0.
Proof.
  intros H. pose proof (distance_nonneg s) as Hn.
  destruct (Req_dec_T (Simulation.distance s) 0) as [Hz | Hz]; [ exact Hz | ].
  exfalso. apply (distance_pos_inv s); [ lra | exact H ].
Qed.

Lemma at_target_of_distance (s : Simulation.t) :
  Simulation.distance s = 0 -> Simulation.camera_position s = target s.
Proof. intros Hz. apply sub_eq_zero. apply length_zero_inv. exact Hz. Qed.

(** C4: [zoomIn] sets the camera distance to
    [max(minDistance, currentDistance * 0.8)] and [zoomOut] sets it to
    [min(maxDistance, currentDistance * 1.25)]; each keeps the view
    direction, moving the camera along the line from the target through its
    old position (the offset is scaled by new distance / old distance); and
    from distance [100] with [minDistance = 10] three [zoomIn] steps give
    [80], [64] and [51.2]. The camera is taken off the target and
    [maxDistance] not negative, as they are in every state of a run, where
    the distance lies between the bounds [10] and [300]. *)
Theorem zoom_step_distance (s : Simulation.t) :
  Simulation.camera_position s <> target s ->
  0 <= maxDistance s ->
  (Simulation.distance (Simulation.zoomIn s)
     = Rmax (minDistance s) (Simulation.distance s * 0.8)
   /\ Simulation.camera_position (Simulation.zoomIn s)
     = Vector3.add (target s)
         (Vector3.multiplyScalar
            (Vector3.sub (Simulation.camera_position s) (target s))
            (Rmax (minDistance s) (Simulation.distance s * 0.8)
             / Simulation.distance s)))
  /\ (Simulation.distance (Simulation.zoomOut s)
     = Rmin (maxDistance s) (Simulation.distance s * 1.25)
   /\ Simulation.camera_position (Simulation.zoomOut s)
     = Vector3.add (target s)
         (Vector3.multiplyScalar
            (Vector3.sub (Simulation.camera_position s) (target s))
            (Rmin (maxDistance s) (Simulation.distance s * 1.25)
             / Simulation.distance s)))
  /\ (Simulation.distance s = 100 -> minDistance s = 10 ->
      Simulation.distance (Simulation.zoomIn s) = 80
      /\ Simulation.distance (Simulation.zoomIn (Simulation.zoomIn s)) = 64
      /\ Simulation.distance
           (Simulation.zoomIn (Simulation.zoomIn (Simulation.zoomIn s))) = 51.2).
Proof.
  intros Hne Hmax. pose proof (distance_pos s Hne) as Hd.
  split; [ | split ].
  - split; [ apply distance_zoomIn | apply position_zoomIn ]; exact Hd.
  - split; [ apply distance_zoomOut | apply position_zoomOut ]; assumption.
  - intros H100 Hmin.
    assert (H1 : Simulation.distance (Simulation.zoomIn s) = 80).
    { rewrite distance_zoomIn, Hmin, H100 by exact Hd. rewrite Rmax_right; lra. }
    assert (H2 : Simulation.distance (Simulation.zoomIn (Simulation.zoomIn s)) = 64).
    { rewrite distance_zoomIn, controls_zoomIn, Hmin, H1 by lra.
      rewrite Rmax_right; lra. }
    split; [ exact H1 | split; [ exact H2 | ] ].
    rewrite distance_zoomIn, !controls_zoomIn, Hmin, H2 by lra.
    rewrite Rmax_right; lra.
Qed.

End ZoomStep.

(** ** Repeated zoom steps *)

Section ZoomRepeated.

Local Abbreviation target s := (OrbitControls.target (Simulation.controls s)).
Local Abbreviation minDistance s := (OrbitControls.minDistance (Simulation.controls s)).
Local Abbreviation maxDistance s := (OrbitControls.maxDistance (Simulation.controls s)).

Lemma Rmax_shrink_absorb (m x : R) :
  0 < m -> Rmax m (Rmax m x * 0.8) = Rmax m (x * 0.8).
Proof. intros Hm. unfold Rmax. repeat destruct (Rle_dec _ _); lra. Qed.

Lemma Rmin_grow_absorb (m x : R) :
  0 < m -> Rmin m (Rmin m x * 1.25) = Rmin m (x * 1.25).
Proof. intros Hm. unfold Rmin. repeat destruct (Rle_dec _ _); lra. Qed.

Lemma controls_iter_zoomIn (n : nat) (s : Simulation.t) :
  Simulation.controls (iter n Simulation.zoomIn s) = Simulation.controls s.
Proof. induction n as [ | n IH]; simpl; [ reflexivity | exact IH ]. Qed.

Lemma controls_iter_zoomOut (n : nat) (s : Simulation.t) :
  Simulation.controls (iter n Simulation.zoomOut s) = Simulation.controls s.
Proof. induction n as [ | n IH]; simpl; [ reflexivity | exact IH ]. Qed.

(** After [n + 1] steps in, the distance is
    [max(minDistance, d * 0.8^(n+1))]. *)
Lemma distance_iter_zoomIn (s : Simulation.t) (n : nat) :
  0 < Simulation.distance s -> 0 < minDistance s ->
  Simulation.distance (iter (S n) Simulation.zoomIn s)
  = Rmax (minDistance s) (Simulation.distance s * 0.8 ^ S n).
Proof.
  intros Hd Hm. induction n as [ | n IH].
  - simpl. rewrite distance_zoomIn by exact Hd. f_equal. ring.
  - change (iter (S (S n)) Simulation.zoomIn s)
      with (Simulation.zoomIn (iter (S n) Simulation.zoomIn s)).
    assert (Hpos : 0 < Simulation.distance (iter (S n) Simulation.zoomIn s)).
    { rewrite IH. apply Rlt_le_trans with (minDistance s); [ exact Hm | apply Rmax_l ]. }
    rewrite distance_zoomIn by exact Hpos.
    rewrite controls_iter_zoomIn, IH, Rmax_shrink_absorb by exact Hm.
    f_equal. simpl. ring.
Qed.

Lemma distance_iter_zoomOut (s : Simulation.t) (n : nat) :
  0 < Simulation.distance s -> 0 < maxDistance s ->
  Simulation.distance (iter (S n) Simulation.zoomOut s)
  = Rmin (maxDistance s) (Simulation.distance s * 1.25 ^ S n).
Proof.
  intros Hd Hm. induction n as [ | n IH].
  - simpl. rewrite distance_zoomOut by lra. f_equal. ring.
  - change (iter (S (S n)) Simulation.zoomOut s)
      with (Simulation.zoomOut (iter (S n) Simulation.zoomOut s)).
    assert (Hp : 0 < 1.25 ^ S n) by (apply pow_lt; lra).
    assert (Hpos : 0 < Simulation.distance (iter (S n) Simulation.zoomOut s)).
    { rewrite IH. apply Rmin_glb_lt; [ exact Hm | ].
      apply Rmult_lt_0_compat; assumption. }
    rewrite distance_zoomOut; [ | exact Hpos | rewrite controls_iter_zoomOut; lra ].
    rewrite controls_iter_zoomOut, IH, Rmin_grow_absorb by exact Hm.
    f_equal. simpl. ring.
Qed.

(** Some power of [0.8] brings any positive distance under any positive bound. *)
Lemma shrink_reaches (d m : R) :
  0 < d -> 0 < m -> exists N : nat, forall n : nat, (N <= n)%nat -> d * 0.8 ^ n <= m.
Proof.
  intros Hd Hm.
  destruct (pow_lt_1_zero 0.8) with (y := m / d) as [N HN].
  - rewrite Rabs_right; lra.
  - apply Rdiv_lt_0_compat; assumption.
  - exists N. intros n Hn. specialize (HN n Hn).
    assert (Hp : 0 < 0.8 ^ n) by (apply pow_lt; lra).
    rewrite Rabs_right in HN by lra.
    apply Rmult_lt_compat_l with (r := d) in HN; [ | exact Hd ].
    replace (d * (m / d)) with m in HN by (field; lra). lra.
Qed.

(** Some power of [1.25] takes any positive distance over any bound. *)
Lemma grow_reaches (d m : R) :
  0 < d -> exists N : nat, forall n : nat, (N <= n)%nat -> m <= d * 1.25 ^ n.
Proof.
  intros Hd.
  destruct (Pow_x_infinity 1.25) with (b := m / d) as [N HN].
  - rewrite Rabs_right; lra.
  - exists N. intros n Hn. specialize (HN n Hn).
    assert (Hp : 0 < 1.25 ^ n) by (apply pow_lt; lra).
    rewrite Rabs_right in HN by lra.
    apply Rge_le in HN.
    apply Rmult_le_compat_l with (r := d) in HN; [ | lra ].
    replace (d * (m / d)) with m in HN by (field; lra). exact HN.
Qed.

(** C5 (as amended): in exact real arithmetic, from every camera position
    of a run (the camera off the target, the bounds positive), every
    [zoomIn] step yields a distance of at least [minDistance] and after
    finitely many steps the distance is exactly [minDistance] and stays
    there; every [zoomOut] step yields a distance of at most [maxDistance]
    and after finitely many steps the distance is exactly [maxDistance] and
    stays there. A request past a bound saturates at the bound. With the
    rounding of binary64 the distance measured after a step can miss the
    bound by a rounding error: see [binary64_zoomIn_misses_minDistance]. *)
Theorem zoom_saturates (s : Simulation.t) :
  Simulation.camera_position s <> target s ->
  0 < minDistance s ->
  0 < maxDistance s ->
  (forall n : nat, (1 <= n)%nat ->
     minDistance s <= Simulation.distance (iter n Simulation.zoomIn s))
  /\ (exists N : nat, forall n : nat, (N <= n)%nat ->
     Simulation.distance (iter n Simulation.zoomIn s) = minDistance s)
  /\ (forall n : nat, (1 <= n)%nat ->
     Simulation.distance (iter n Simulation.zoomOut s) <= maxDistance s)
  /\ (exists N : nat, forall n : nat, (N <= n)%nat ->
     Simulation.distance (iter n Simulation.zoomOut s) = maxDistance s).
Proof.
  intros Hne Hmin Hmax. pose proof (distance_pos s Hne) as Hd.
  split; [ | split; [ | split ] ].
  - intros [ | n] Hn; [ lia | ].
    rewrite distance_iter_zoomIn by assumption. apply Rmax_l.
  - destruct (shrink_reaches (Simulation.distance s) (minDistance s) Hd Hmin) as [N HN].
    exists (S N). intros [ | n] Hn; [ lia | ].
    rewrite distance_iter_zoomIn by assumption.
    apply Rmax_left. apply HN. lia.
  - intros [ | n] Hn; [ lia | ].
    rewrite distance_iter_zoomOut by assumption. apply Rmin_l.
  - destruct (grow_reaches (Simulation.distance s) (maxDistance s) Hd) as [N HN].
    exists (S N). intros [ | n] Hn; [ lia | ].
    rewrite distance_iter_zoomOut by assumption.
    apply Rmin_left. apply HN. lia.
Qed.

(** C9 (as amended): in exact real arithmetic, [zoomIn] then [zoomOut]
    gives back the distance [d] when [minDistance <= 0.8 * d] and
    [d <= maxDistance]; [zoomOut] then [zoomIn] gives it back when
    [1.25 * d <= maxDistance] and [minDistance <= d]. With the rounding of
    binary64 the distance can come back off by a rounding error: see
    [binary64_zoom_round_trip_drifts]. *)
Theorem zoom_round_trip (s : Simulation.t) :
  (minDistance s <= 0.8 * Simulation.distance s ->
   Simulation.distance s <= maxDistance s ->
   Simulation.distance (Simulation.zoomOut (Simulation.zoomIn s))
   = Simulation.distance s)
  /\ (1.25 * Simulation.distance s <= maxDistance s ->
      minDistance s <= Simulation.distance s ->
      Simulation.distance (Simulation.zoomIn (Simulation.zoomOut s))
      = Simulation.distance s).
Proof.
  pose proof (distance_nonneg s) as Hn.
  destruct (Req_dec_T (Simulation.distance s) 0) as [Hz | Hz].
  - (* the camera is on the target and stays there *)
    pose proof (at_target_of_distance s Hz) as Hat.
    split; intros _ _; rewrite Hz; apply distance_at_target.
    + exact (zoomOut_at_target (Simulation.zoomIn s) (zoomIn_at_target s Hat)).
    + exact (zoomIn_at_target (Simulation.zoomOut s) (zoomOut_at_target s Hat)).
  - assert (Hd : 0 < Simulation.distance s) by lra.
    split.
    + intros Hmin Hmax.
      assert (H1 : Simulation.distance (Simulation.zoomIn s)
                   = Simulation.distance s * 0.8).
      { rewrite distance_zoomIn by exact Hd. apply Rmax_right. lra. }
      rewrite distance_zoomOut; rewrite ?controls_zoomIn, ?H1; try lra.
      rewrite Rmin_right; lra.
    + intros Hmax Hmin.
      assert (H1 : Simulation.distance (Simulation.zoomOut s)
                   = Simulation.distance s * 1.25).
      { rewrite distance_zoomOut by lra. apply Rmin_right. lra. }
      rewrite distance_zoomIn; rewrite ?controls_zoomOut, ?H1; try lra.
      rewrite Rmax_right; lra.
Qed.

End ZoomRepeated.

(** ** Indexed loops *)

Section IndexedLoops.

Context {A B : Type}.

Lemma nth_error_mapi_from (f : nat -> A -> B) (l : list A) :
  forall k i : nat,
    nth_error (mapi_from f k l) i = option_map (f (k + i)%nat) (nth_error l i).
Proof.
  induction l as [ | a l IH]; intros k i.
  - destruct i; reflexivity.
  - destruct i as [ | i]; simpl.
    + rewrite Nat.add_0_r. reflexivity.
    + rewrite IH. replace (S k + i)%nat with (k + S i)%nat by lia. reflexivity.
Qed.

Lemma nth_error_mapi (f : nat -> A -> B) (l : list A) (i : nat) :
  nth_error (mapi f l) i = option_map (f i) (nth_error l i).
Proof. unfold mapi. rewrite nth_error_mapi_from. reflexivity. Qed.

Lemma length_mapi_from (f : nat -> A -> B) (l : list A) :
  forall k : nat, List.length (mapi_from f k l) = List.length l.
Proof. induction l as [ | a l IH]; intros k; simpl; [ | rewrite IH ]; reflexivity. Qed.

Lemma map_mapi_from {C : Type} (g : B -> C) (f : nat -> A -> B) (l : list A) :
  forall k : nat, map g (mapi_from f k l) = mapi_from (fun i a => g (f i a)) k l.
Proof. induction l as [ | a l IH]; intros k; simpl; [ | rewrite IH ]; reflexivity. Qed.

Lemma mapi_from_ext (f g : nat -> A -> B) (l : list A) :
  (forall i a, f i a = g i a) ->
  forall k : nat, mapi_from f k l = mapi_from g k l.
Proof.
  intros H. induction l as [ | a l IH]; intros k; simpl; [ | rewrite H, IH ]; reflexivity.
Qed.

End IndexedLoops.

Lemma mapi_from_const_map {A B : Type} (g : A -> B) (l : list A) :
  forall k : nat, mapi_from (fun _ a => g a) k l = map g l.
Proof. induction l as [ | a l IH]; intros k; simpl; [ | rewrite IH ]; reflexivity. Qed.

Lemma mapi_from_twice {A : Type} (f : nat -> A -> A) (l : list A) :
  forall k : nat,
    mapi_from f k (mapi_from f k l) = mapi_from (fun i a => f i (f i a)) k l.
Proof. induction l as [ | a l IH]; intros k; simpl; [ | rewrite IH ]; reflexivity. Qed.

(** ** The frame loop *)

Section FrameLoopFacts.

Variable controls_update :
  OrbitControls.t -> Vector3.t -> OrbitControls.t * Vector3.t.

Local Abbreviation animate := (Simulation.animate controls_update).

(** [animate] starts by taking the pair [controls.update()] returns apart. *)
Ltac open_animate :=
  unfold Simulation.animate;
  match goal with
  | |- context [controls_update ?c ?p] => destruct (controls_update c p)
  end.

Lemma time_animate (s : Simulation.t) :
  Simulation.time (animate s)
  = if negb (Simulation.isPaused s) then Simulation.time s + 0.01 else Simulation.time s.
Proof. open_animate. reflexivity. Qed.

Lemma isPaused_animate (s : Simulation.t) :
  Simulation.isPaused (animate s) = Simulation.isPaused s.
Proof. open_animate. reflexivity. Qed.

Lemma targetPos_animate (s : Simulation.t) :
  Simulation.targetPos (animate s) = Simulation.targetPos s.
Proof. open_animate. reflexivity. Qed.

Lemma frames_animate (s : Simulation.t) :
  Simulation.frames (animate s) = S (Simulation.frames s).
Proof. open_animate. reflexivity. Qed.

Lemma camera_animate (s : Simulation.t) :
  (Simulation.controls (animate s), Simulation.camera_position (animate s))
  = controls_update (Simulation.controls s) (Simulation.camera_position s).
Proof. open_animate. reflexivity. Qed.

Lemma planets_animate (s : Simulation.t) :
  Simulation.planets (animate s)
  = mapi (Simulation.animate_planet (Simulation.isPaused s) (Simulation.time (animate s)))
      (Simulation.planets s).
Proof.
  rewrite time_animate. open_animate. reflexivity.
Qed.

(** The body at index [i] after a tick is the turn [i] of the loop run on
    the body at index [i] before it. *)
Lemma nth_planet_animate (s : Simulation.t) (i : nat) (p : Planet.t) :
  nth_error (Simulation.planets s) i = Some p ->
  nth_error (Simulation.planets (animate s)) i
  = Some (Simulation.animate_planet (Simulation.isPaused s)
            (Simulation.time (animate s)) i p).
Proof. intros H. rewrite planets_animate, nth_error_mapi, H. reflexivity. Qed.

Lemma mesh_update_label (p : Planet.t) :
  Planet.mesh (Simulation.update_label p) = Planet.mesh p.
Proof. unfold Simulation.update_label. destruct (Planet.label p); reflexivity. Qed.

Lemma angle_update_label (p : Planet.t) :
  Planet.angle (Simulation.update_label p) = Planet.angle p.
Proof. unfold Simulation.update_label. destruct (Planet.label p); reflexivity. Qed.

Lemma data_update_label (p : Planet.t) :
  Planet.data (Simulation.update_label p) = Planet.data p.
Proof. unfold Simulation.update_label. destruct (Planet.label p); reflexivity. Qed.

Lemma data_animate_planet (paused : bool) (now : R) (i : nat) (p : Planet.t) :
  Planet.data (Simulation.animate_planet paused now i p) = Planet.data p.
Proof.
  unfold Simulation.animate_planet. rewrite data_update_label.
  destruct (Nat.eqb i 0); reflexivity.
Qed.

(** The turn for the central body: mesh at the origin, angle untouched. *)
Lemma animate_planet_central (paused : bool) (now : R) (p : Planet.t) :
  Mesh.position (Planet.mesh (Simulation.animate_planet paused now 0 p))
  = Vector3.mk 0 0 0
  /\ Planet.angle (Simulation.animate_planet paused now 0 p) = Planet.angle p.
Proof.
  unfold Simulation.animate_planet.
  rewrite mesh_update_label, angle_update_label. simpl. split; reflexivity.
Qed.

(** The turn for an orbiting body: the angle it leaves and the mesh
    position it sets from that angle. *)
Lemma animate_planet_orbiting (paused : bool) (now : R) (i : nat) (p : Planet.t) :
  i <> 0%nat ->
  let p' := Simulation.animate_planet paused now i p in
  let a := Body.r (Planet.data p) in
  let e := Body.e (Planet.data p) in
  Planet.angle p'
  = (if negb paused
     then Planet.angle p + Body.speed (Planet.data p) * 0.005
     else Planet.angle p)
  /\ Mesh.position (Planet.mesh p')
    = Vector3.mk (cos (Planet.angle p') * a - a * e) 0
                 (sin (Planet.angle p') * (a * sqrt (1 - e * e))).
Proof.
  intros Hi. unfold Simulation.animate_planet.
  rewrite mesh_update_label, angle_update_label.
  destruct i as [ | i]; [ contradiction | ].
  simpl. rewrite or_self_zero. split; reflexivity.
Qed.

(** C2: after every tick the body at index 0 has its mesh exactly at the
    origin, whatever the state before the tick was (target position, pause
    flag, clock, the position stored before); this holds for [animate]
    and for the frame callback of the page, hooked or not. *)
Theorem central_body_pinned (s : Simulation.t) (p : Planet.t) :
  nth_error (Simulation.planets s) 0 = Some p ->
  (exists p' : Planet.t,
      nth_error (Simulation.planets (animate s)) 0 = Some p'
      /\ Mesh.position (Planet.mesh p') = Vector3.mk 0 0 0)
  /\ (forall (uiPaused hooked : bool),
        exists p' : Planet.t,
          nth_error
            (Simulation.planets
               (Main.simulation
                  (Main.step controls_update (Main.mk s uiPaused hooked)
                     Main.AnimationFrame))) 0 = Some p'
          /\ Mesh.position (Planet.mesh p') = Vector3.mk 0 0 0).
Proof.
  intros H. split.
  - eexists. split; [ apply nth_planet_animate; exact H | ].
    apply animate_planet_central.
  - intros uiPaused hooked.
    destruct hooked; unfold Main.step;
      cbn [Main.hooked Main.simulation Main.isPaused].
    + eexists. split; [ apply nth_planet_animate; exact H | ].
      apply animate_planet_central.
    + eexists. split; [ apply nth_planet_animate; exact H | ].
      apply animate_planet_central.
Qed.

(** C1: after a tick every body at an index other than 0 has its mesh at
    [x = cos(phase) * a - c], [y = 0], [z = sin(phase) * b] with
    [b = a * sqrt(1 - e^2)] and [c = a * e], for its phase after the tick
    and for every [a] and [e]; for [a = 10], [e = 0.206] and phase [pi/2]
    that is [x = -2.06], [z = 10 * sqrt(1 - 0.206^2)]. *)
Theorem orbit_position_formula (s : Simulation.t) (i : nat) (p : Planet.t) :
  i <> 0%nat ->
  nth_error (Simulation.planets s) i = Some p ->
  exists p' : Planet.t,
    nth_error (Simulation.planets (animate s)) i = Some p'
    /\ Planet.data p' = Planet.data p
    /\ (let a := Body.r (Planet.data p) in
        let e := Body.e (Planet.data p) in
        let phase := Planet.angle p' in
        let b := a * sqrt (1 - e ^ 2) in
        let c := a * e in
        Mesh.position (Planet.mesh p')
        = Vector3.mk (cos phase * a - c) 0 (sin phase * b))
    /\ (Body.r (Planet.data p) = 10 ->
        Body.e (Planet.data p) = 0.206 ->
        Planet.angle p' = PI / 2 ->
        Mesh.position (Planet.mesh p')
        = Vector3.mk (- 2.06) 0 (10 * sqrt (1 - 0.206 ^ 2))).
Proof.
  intros Hi H. eexists. split; [ apply nth_planet_animate; exact H | ].
  destruct (animate_planet_orbiting (Simulation.isPaused s)
              (Simulation.time (animate s)) i p Hi) as [_ Hpos].
  cbv zeta in Hpos. split; [ apply data_animate_planet | ]. split.
  - cbv zeta. rewrite Hpos. f_equal. f_equal. f_equal. f_equal. ring.
  - intros Ha He Hphase. rewrite Hpos, Hphase, Ha, He, cos_PI2, sin_PI2.
    f_equal; [ lra | ]. rewrite Rmult_1_l. f_equal. f_equal. f_equal. ring.
Qed.

(** C8: on a tick with the pause flag clear, every body at an index other
    than 0 has its phase advanced by exactly [speed * 0.005] and its mesh
    position recomputed by the orbit formula from the new phase; the phase
    of the body at index 0 is left as it was, on every tick. *)
Theorem phase_advance (s : Simulation.t) (i : nat) (p : Planet.t) :
  nth_error (Simulation.planets s) i = Some p ->
  exists p' : Planet.t,
    nth_error (Simulation.planets (animate s)) i = Some p'
    /\ (i = 0%nat -> Planet.angle p' = Planet.angle p)
    /\ (i <> 0%nat -> Simulation.isPaused s = false ->
        let a := Body.r (Planet.data p) in
        let e := Body.e (Planet.data p) in
        Planet.angle p' = Planet.angle p + Body.speed (Planet.data p) * 0.005
        /\ Mesh.position (Planet.mesh p')
          = Vector3.mk
              (cos (Planet.angle p + Body.speed (Planet.data p) * 0.005) * a - a * e)
              0
              (sin (Planet.angle p + Body.speed (Planet.data p) * 0.005)
               * (a * sqrt (1 - e * e)))).
Proof.
  intros H. eexists. split; [ apply nth_planet_animate; exact H | ]. split.
  - intros ->. apply animate_planet_central.
  - intros Hi Hrun.
    destruct (animate_planet_orbiting (Simulation.isPaused s)
                (Simulation.time (animate s)) i p Hi) as [Hangle Hpos].
    cbv zeta in Hpos. rewrite Hrun in Hangle, Hpos |- *. cbn [negb] in Hangle.
    cbv zeta. split; [ exact Hangle | ].
    rewrite Hpos, Hangle. reflexivity.
Qed.

Lemma label_update_label (p : Planet.t) :
  Planet.label p <> None ->
  Planet.label (Simulation.update_label p)
  = Some (Vector3.add (Mesh.position (Planet.mesh p))
            (Vector3.mk 0 (Body.size (Planet.data p) + 2.0) 0)).
Proof.
  intros H. unfold Simulation.update_label.
  destruct (Planet.label p) as [l | ]; [ | contradiction ].
  simpl. unfold Vector3.add. simpl. f_equal. f_equal; ring.
Qed.

(** C10: on every tick every body at an index other than 0 gets the
    position just computed by the orbit formula as the position of its
    mesh, and the label of a body is placed at the mesh position plus
    [(0, size + 2.0, 0)]. *)
Theorem label_anchor (s : Simulation.t) (i : nat) (p : Planet.t) :
  nth_error (Simulation.planets s) i = Some p ->
  Planet.label p <> None ->
  exists p' : Planet.t,
    nth_error (Simulation.planets (animate s)) i = Some p'
    /\ Planet.label p'
      = Some (Vector3.add (Mesh.position (Planet.mesh p'))
                (Vector3.mk 0 (Body.size (Planet.data p) + 2.0) 0))
    /\ (i <> 0%nat ->
        let a := Body.r (Planet.data p) in
        let e := Body.e (Planet.data p) in
        Mesh.position (Planet.mesh p')
        = Vector3.mk (cos (Planet.angle p') * a - a * e) 0
                     (sin (Planet.angle p') * (a * sqrt (1 - e * e)))).
Proof.
  intros H Hl. eexists. split; [ apply nth_planet_animate; exact H | ]. split.
  - unfold Simulation.animate_planet at 1 2.
    rewrite mesh_update_label, label_update_label.
    + destruct (Nat.eqb i 0); reflexivity.
    + destruct (Nat.eqb i 0); exact Hl.
  - intros Hi. apply animate_planet_orbiting. exact Hi.
Qed.

(** *** Ticks while paused *)

Lemma angle_animate_planet_paused (now : R) (i : nat) (p : Planet.t) :
  Planet.angle (Simulation.animate_planet true now i p) = Planet.angle p.
Proof.
  unfold Simulation.animate_planet. rewrite angle_update_label.
  destruct (Nat.eqb i 0); reflexivity.
Qed.

(** Run twice with the pause flag set, a turn of the loop gives what it
    gives run once. *)
Lemma animate_planet_paused_twice (now : R) (i : nat) (p : Planet.t) :
  Simulation.animate_planet true now i (Simulation.animate_planet true now i p)
  = Simulation.animate_planet true now i p.
Proof.
  destruct p as [[pos rot tu] lbl d ang].
  unfold Simulation.animate_planet, Simulation.update_label.
  destruct (Nat.eqb i 0), lbl, tu; reflexivity.
Qed.

Lemma planets_animate_paused (s : Simulation.t) :
  Simulation.isPaused s = true ->
  Simulation.planets (animate s)
  = mapi (Simulation.animate_planet true (Simulation.time s)) (Simulation.planets s).
Proof.
  intros Hp. rewrite planets_animate, time_animate, Hp. reflexivity.
Qed.

Lemma paused_ticks (s : Simulation.t) :
  Simulation.isPaused s = true ->
  forall n : nat,
    Simulation.isPaused (iter n animate s) = true
    /\ Simulation.time (iter n animate s) = Simulation.time s
    /\ Simulation.frames (iter n animate s) = (Simulation.frames s + n)%nat
    /\ map Planet.angle (Simulation.planets (iter n animate s))
      = map Planet.angle (Simulation.planets s)
    /\ Simulation.planets (animate (iter n animate s))
      = Simulation.planets (animate s).
Proof.
  intros Hp. induction n as [ | n (IHp & IHt & IHf & IHa & IHs)].
  - simpl. rewrite Nat.add_0_r. repeat split; try reflexivity. exact Hp.
  - cbn [iter]. set (s' := iter n animate s) in *.
    assert (Hp' : Simulation.isPaused (animate s') = true)
      by (rewrite isPaused_animate; exact IHp).
    assert (Ht' : Simulation.time (animate s') = Simulation.time s)
      by (rewrite time_animate, IHp; exact IHt).
    split; [ exact Hp' | ]. split; [ exact Ht' | ].
    split; [ rewrite frames_animate, IHf; lia | ]. split.
    + rewrite planets_animate_paused by exact IHp. unfold mapi.
      rewrite map_mapi_from.
      rewrite (mapi_from_ext _ (fun _ a => Planet.angle a)).
      * rewrite mapi_from_const_map. exact IHa.
      * intros j a. apply angle_animate_planet_paused.
    + rewrite (planets_animate_paused (animate s')) by exact Hp'.
      rewrite Ht', IHs, (planets_animate_paused s) by exact Hp.
      unfold mapi. rewrite mapi_from_twice.
      apply mapi_from_ext. intros j a. apply animate_planet_paused_twice.
Qed.

(** C3: while the pause flag is set, any number of ticks leaves the clock
    and every phase as they were; the tick recomputes the same bodies
    (positions, labels, rotations) every time, so each later tick gives
    the planets the first one gave; and every tick still renders once and
    still hands the camera to the orbit controls. *)
Theorem paused_ticks_freeze (s : Simulation.t) (n : nat) :
  Simulation.isPaused s = true ->
  let s' := iter n animate s in
  Simulation.isPaused s' = true
  /\ Simulation.time s' = Simulation.time s
  /\ map Planet.angle (Simulation.planets s')
    = map Planet.angle (Simulation.planets s)
  /\ Simulation.planets (animate s') = Simulation.planets (animate s)
  /\ Simulation.planets (animate (animate s')) = Simulation.planets (animate s')
  /\ Simulation.frames s' = (Simulation.frames s + n)%nat
  /\ Simulation.frames (animate s') = S (Simulation.frames s')
  /\ (Simulation.controls (animate s'), Simulation.camera_position (animate s'))
    = controls_update (Simulation.controls s') (Simulation.camera_position s').
Proof.
  intros Hp s'.
  destruct (paused_ticks s Hp n) as (H1 & H2 & H3 & H4 & H5).
  destruct (paused_ticks s Hp (S n)) as (_ & _ & _ & _ & H6).
  cbn [iter] in H6. fold s' in H1, H2, H3, H4, H5, H6.
  repeat split; try assumption.
  - rewrite H6, H5. reflexivity.
  - apply frames_animate.
  - apply camera_animate.
Qed.

End FrameLoopFacts.

(** ** Zoom clicks and frames *)

Section ZoomClicks.

Variable controls_update :
  OrbitControls.t -> Vector3.t -> OrbitControls.t * Vector3.t.

Local Abbreviation step := (Main.step controls_update).
Local Abbreviation run := (Main.run controls_update).

Lemma run_app (pg : Main.t) (evs evs' : list Main.event) :
  run pg (evs ++ evs') = run (run pg evs) evs'.
Proof. unfold Main.run. apply fold_left_app. Qed.

Lemma run_zoomIn_clicks (n : nat) :
  forall pg : Main.t,
    run pg (repeat Main.ClickZoomIn n)
    = Main.mk (iter n Simulation.zoomIn (Main.simulation pg))
        (Main.isPaused pg) (Main.hooked pg).
Proof.
  induction n as [ | n IH]; intros pg.
  - destruct pg; reflexivity.
  - replace (repeat Main.ClickZoomIn (S n))
      with (repeat Main.ClickZoomIn n ++ [Main.ClickZoomIn])
      by (rewrite <- repeat_cons; reflexivity).
    rewrite run_app, IH. reflexivity.
Qed.

Lemma run_zoomOut_clicks (n : nat) :
  forall pg : Main.t,
    run pg (repeat Main.ClickZoomOut n)
    = Main.mk (iter n Simulation.zoomOut (Main.simulation pg))
        (Main.isPaused pg) (Main.hooked pg).
Proof.
  induction n as [ | n IH]; intros pg.
  - destruct pg; reflexivity.
  - replace (repeat Main.ClickZoomOut (S n))
      with (repeat Main.ClickZoomOut n ++ [Main.ClickZoomOut])
      by (rewrite <- repeat_cons; reflexivity).
    rewrite run_app, IH. reflexivity.
Qed.

(** C7 (as amended): a click on a zoom button runs [zoomIn] or [zoomOut]
    inside the click handler: the camera has moved by one step when the
    handler returns, no tick is needed, and the simulation keeps no
    pending zoom. [n] clicks in a row, with no frame between them, apply
    [n] steps. A frame applies no zoom step: it hands the camera to the
    orbit controls and to nothing else, paused or not, hooked or not. *)
Theorem zoom_click_immediate (pg : Main.t) (n : nat) :
  Main.simulation (run pg (repeat Main.ClickZoomIn n))
  = iter n Simulation.zoomIn (Main.simulation pg)
  /\ Main.simulation (run pg (repeat Main.ClickZoomOut n))
    = iter n Simulation.zoomOut (Main.simulation pg)
  /\ Simulation.frames (Main.simulation (run pg (repeat Main.ClickZoomIn n)))
    = Simulation.frames (Main.simulation pg)
  /\ (Simulation.controls (Main.simulation (step pg Main.AnimationFrame)),
      Simulation.camera_position (Main.simulation (step pg Main.AnimationFrame)))
    = controls_update (Simulation.controls (Main.simulation pg))
        (Simulation.camera_position (Main.simulation pg)).
Proof.
  rewrite run_zoomIn_clicks, run_zoomOut_clicks. cbn [Main.simulation].
  split; [ reflexivity | ]. split; [ reflexivity | ]. split.
  - induction n as [ | n IH]; [ reflexivity | exact IH ].
  - unfold Main.step. destruct (Main.hooked pg); cbn [Main.simulation];
      rewrite camera_animate; reflexivity.
Qed.

End ZoomClicks.

(** ** Building the registry *)

Section Registry.

Lemma data_create_planets (random : nat -> R) (table : list Body.t) :
  forall k : nat,
    map Planet.data (mapi_from (Simulation.create_planet random) k table) = table.
Proof.
  induction table as [ | b table IH]; intros k; simpl; [ | rewrite IH ]; reflexivity.
Qed.

(** The table [init] builds the registry from is a literal of the source.
    It is well formed: every eccentricity lies in [[0, 1)] and no name is
    used twice. *)
Lemma bodies_well_formed : well_formed_table Simulation.bodies.
Proof.
  split.
  - unfold Simulation.bodies. repeat constructor; cbn [Body.e]; lra.
  - unfold Simulation.bodies. cbn [map Body.name].
    repeat constructor; cbn [In]; intuition discriminate.
Qed.

(** [init] has no parameter but the random draws and reads no table but its
    own: it returns a simulation whose planets carry the rows of [bodies],
    in order. *)
Lemma init_keeps_rows (random : nat -> R) :
  exists s : Simulation.t,
    Simulation.init random = JS.Returns s
    /\ map Planet.data (Simulation.planets s) = Simulation.bodies.
Proof. eexists. split; [ reflexivity | apply data_create_planets ]. Qed.

End Registry.

(** ** What every run keeps *)

Section Runs.

Variable controls_update :
  OrbitControls.t -> Vector3.t -> OrbitControls.t * Vector3.t.

Local Abbreviation animate := (Simulation.animate controls_update).
Local Abbreviation step := (Main.step controls_update).
Local Abbreviation run := (Main.run controls_update).

Lemma Forall_mapi_from {A B : Type} (P : A -> Prop) (Q : B -> Prop)
    (f : nat -> A -> B) (l : list A) :
  (forall i a, P a -> Q (f i a)) ->
  Forall P l -> forall k : nat, Forall Q (mapi_from f k l).
Proof.
  intros Hf Hl. induction Hl as [ | a l Ha _ IH]; intros k; simpl; constructor.
  - apply Hf. exact Ha.
  - apply IH.
Qed.

Lemma has_label_animate_planet (paused : bool) (now : R) (i : nat) (p : Planet.t) :
  has_label p -> has_label (Simulation.animate_planet paused now i p).
Proof.
  unfold has_label, Simulation.animate_planet, Simulation.update_label. intros H.
  destruct (Nat.eqb i 0); cbn [Planet.label];
    (destruct (Planet.label p) as [l | ]; [ discriminate | contradiction ]).
Qed.

Lemma registry_intact_init (random : nat -> R) (s : Simulation.t) :
  Simulation.init random = JS.Returns s -> registry_intact s.
Proof.
  intros H. injection H as <-. split.
  - apply data_create_planets.
  - apply (Forall_mapi_from (fun _ => True)).
    + intros i a _. unfold has_label. discriminate.
    + apply Forall_forall. intros; exact I.
Qed.

Lemma registry_intact_animate (s : Simulation.t) :
  registry_intact s -> registry_intact (animate s).
Proof.
  intros [Hd Hl]. unfold registry_intact. rewrite planets_animate. split.
  - unfold mapi. rewrite map_mapi_from.
    rewrite (mapi_from_ext _ (fun _ a => Planet.data a)).
    + rewrite mapi_from_const_map. exact Hd.
    + intros i a. apply data_animate_planet.
  - apply (Forall_mapi_from has_label); [ | exact Hl ].
    intros i a. apply has_label_animate_planet.
Qed.

Lemma registry_intact_step (pg : Main.t) (ev : Main.event) :
  registry_intact (Main.simulation pg) -> registry_intact (Main.simulation (step pg ev)).
Proof.
  intros H. destruct ev; try exact H.
  unfold Main.step. destruct (Main.hooked pg); cbn [Main.simulation];
    apply registry_intact_animate; exact H.
Qed.

Lemma registry_intact_run (evs : list Main.event) :
  forall pg : Main.t,
    registry_intact (Main.simulation pg) ->
    registry_intact (Main.simulation (run pg evs)).
Proof.
  induction evs as [ | ev evs IH]; intros pg H; [ exact H | ].
  apply (IH (step pg ev)). apply registry_intact_step. exact H.
Qed.

(** In every run of the page from [init], the Sun is at index 0, every
    body carries its row and a label, and a frame leaves the Sun's mesh at
    the origin. *)
Lemma sun_pinned_in_every_run (random : nat -> R) (s : Simulation.t)
    (evs : list Main.event) :
  Simulation.init random = JS.Returns s ->
  exists p : Planet.t,
    nth_error
      (Simulation.planets
         (Main.simulation (run (Main.start s) (evs ++ [Main.AnimationFrame])))) 0
    = Some p
    /\ Body.name (Planet.data p) = "Sun"%string
    /\ has_label p
    /\ Mesh.position (Planet.mesh p) = Vector3.mk 0 0 0.
Proof.
  intros Hinit. rewrite run_app.
  pose proof (registry_intact_run evs (Main.start s)
                (registry_intact_init random s Hinit)) as [Hd Hl].
  set (pg := run (Main.start s) evs) in *.
  destruct (Simulation.planets (Main.simulation pg)) as [ | p0 ps] eqn:Hps;
    [ discriminate Hd | ].
  assert (H0 : nth_error (Simulation.planets (Main.simulation pg)) 0 = Some p0)
    by (rewrite Hps; reflexivity).
  assert (Hsun : Body.name (Planet.data p0) = "Sun"%string).
  { simpl in Hd. injection Hd as Hrow _. rewrite Hrow. reflexivity. }
  assert (Hlab : has_label p0) by (inversion Hl; assumption).
  assert (Hupd : forall b, nth_error
            (Simulation.planets (Simulation.updateInteraction b (Main.simulation pg))) 0
            = Some p0) by (intros b; exact H0).
  cbn [Main.run fold_left]. unfold Main.step.
  destruct (Main.hooked pg); cbn [Main.simulation].
  - rewrite (nth_planet_animate controls_update _ 0 p0 (Hupd (Main.isPaused pg))).
    eexists. split; [ reflexivity | ].
    rewrite data_animate_planet. split; [ exact Hsun | ].
    split; [ apply has_label_animate_planet; exact Hlab | ].
    apply animate_planet_central.
  - rewrite (nth_planet_animate controls_update _ 0 p0 H0).
    eexists. split; [ reflexivity | ].
    rewrite data_animate_planet. split; [ exact Hsun | ].
    split; [ apply has_label_animate_planet; exact Hlab | ].
    apply animate_planet_central.
Qed.

(** *** Frames of the page while the Pause button is down *)

Lemma paused_frame (s : Simulation.t) :
  let s' := animate (Simulation.updateInteraction true s) in
  Simulation.time s' = Simulation.time s
  /\ map Planet.angle (Simulation.planets s') = map Planet.angle (Simulation.planets s)
  /\ Simulation.frames s' = S (Simulation.frames s).
Proof.
  destruct (paused_ticks controls_update (Simulation.updateInteraction true s) eq_refl 1)
    as (_ & Ht & Hf & Ha & _).
  cbn [iter] in Ht, Hf, Ha. cbv zeta.
  split; [ exact Ht | ]. split; [ exact Ha | ].
  rewrite Hf. cbn [Simulation.updateInteraction Simulation.frames]. lia.
Qed.

(** Once the hook of [main.js] is in place, frames polled with the button
    down leave the clock and the phases alone and still render. *)
Lemma page_frames_while_paused (n : nat) :
  forall pg : Main.t,
    Main.hooked pg = true -> Main.isPaused pg = true ->
    let pg' := run pg (repeat Main.AnimationFrame n) in
    Main.hooked pg' = true /\ Main.isPaused pg' = true
    /\ Simulation.time (Main.simulation pg') = Simulation.time (Main.simulation pg)
    /\ map Planet.angle (Simulation.planets (Main.simulation pg'))
      = map Planet.angle (Simulation.planets (Main.simulation pg))
    /\ Simulation.frames (Main.simulation pg')
      = (Simulation.frames (Main.simulation pg) + n)%nat.
Proof.
  induction n as [ | n IH]; intros pg Hh Hp.
  - cbn. rewrite Nat.add_0_r. repeat split; assumption.
  - change (repeat Main.AnimationFrame (S n))
      with (Main.AnimationFrame :: repeat Main.AnimationFrame n).
    change (run pg (Main.AnimationFrame :: repeat Main.AnimationFrame n))
      with (run (step pg Main.AnimationFrame) (repeat Main.AnimationFrame n)).
    assert (Hstep : step pg Main.AnimationFrame
                    = Main.mk (animate (Simulation.updateInteraction true
                                          (Main.simulation pg))) true true).
    { unfold Main.step. rewrite Hh, Hp. reflexivity. }
    rewrite Hstep.
    destruct (paused_frame (Main.simulation pg)) as (Ht & Ha & Hf).
    destruct (IH (Main.mk (animate (Simulation.updateInteraction true
                                      (Main.simulation pg))) true true)
                eq_refl eq_refl) as (H1 & H2 & H3 & H4 & H5).
    cbn [Main.simulation] in H3, H4, H5. cbv zeta.
    split; [ exact H1 | ]. split; [ exact H2 | ].
    split; [ rewrite H3; exact Ht | ].
    split; [ rewrite H4; exact Ha | ].
    rewrite H5, Hf. lia.
Qed.

End Runs.

(** * Concrete runs *)

Section ConcreteRuns.

Lemma init_first_simulation : Simulation.init no_random = JS.Returns first_simulation.
Proof. reflexivity. Qed.

Lemma init_quarter_simulation :
  Simulation.init quarter_random = JS.Returns quarter_simulation.
Proof. reflexivity. Qed.

Lemma first_camera_off_target :
  Simulation.camera_position first_simulation
  <> OrbitControls.target (Simulation.controls first_simulation).
Proof.
  change (Vector3.mk 0 60 80 <> Vector3.mk 0 0 0).
  intros H. injection H as H1 H2. lra.
Qed.

Lemma distance_first_simulation : Simulation.distance first_simulation = 100.
Proof.
  change (sqrt ((0 - 0) * (0 - 0) + (60 - 0) * (60 - 0) + (80 - 0) * (80 - 0)) = 100).
  replace ((0 - 0) * (0 - 0) + (60 - 0) * (60 - 0) + (80 - 0) * (80 - 0))
    with (100 * 100) by ring.
  apply sqrt_square. lra.
Qed.

Lemma distance_first_zoomIn :
  Simulation.distance (Simulation.zoomIn first_simulation) = 80.
Proof.
  rewrite distance_zoomIn; rewrite distance_first_simulation; [ | lra ].
  change (OrbitControls.minDistance (Simulation.controls first_simulation)) with 10.
  rewrite Rmax_right; lra.
Qed.

Lemma distance_first_zoomIn_twice :
  Simulation.distance (Simulation.zoomIn (Simulation.zoomIn first_simulation)) = 64.
Proof.
  rewrite distance_zoomIn; rewrite distance_first_zoomIn; [ | lra ].
  change (OrbitControls.minDistance
            (Simulation.controls (Simulation.zoomIn first_simulation))) with 10.
  rewrite Rmax_right; lra.
Qed.

Lemma distance_animate_idle (s : Simulation.t) :
  Simulation.distance (Simulation.animate idle_controls s) = Simulation.distance s.
Proof. reflexivity. Qed.

End ConcreteRuns.

(** ** Runs with orbit controls that keep their bounds *)

Section BoundedRuns.

Variable controls_update :
  OrbitControls.t -> Vector3.t -> OrbitControls.t * Vector3.t.

(** [OrbitControls.update] leaves [minDistance] and [maxDistance] alone
    and, when the two make a range of distances
    ([0 < minDistance <= maxDistance]), puts the camera no nearer to the
    target than the one and no farther than the other. Orbit controls that
    only clamp the distance do so: [clamping_controls_keep_bounds]. *)
Hypothesis controls_keep_bounds :
  forall (c : OrbitControls.t) (p : Vector3.t),
    0 < OrbitControls.minDistance c <= OrbitControls.maxDistance c ->
    OrbitControls.minDistance (fst (controls_update c p)) = OrbitControls.minDistance c
    /\ OrbitControls.maxDistance (fst (controls_update c p)) = OrbitControls.maxDistance c
    /\ OrbitControls.minDistance c
       <= Vector3.length (Vector3.sub (snd (controls_update c p))
                            (OrbitControls.target (fst (controls_update c p))))
       <= OrbitControls.maxDistance c.

Lemma within_bounds_init (random : nat -> R) (s : Simulation.t) :
  Simulation.init random = JS.Returns s -> within_bounds s.
Proof.
  intros H. injection H as <-.
  split; [ reflexivity | ]. split; [ reflexivity | ].
  change (10 <= Simulation.distance first_simulation <= 300).
  rewrite distance_first_simulation. lra.
Qed.

Lemma within_bounds_zoomIn (s : Simulation.t) :
  within_bounds s -> within_bounds (Simulation.zoomIn s).
Proof.
  intros (Hmin & Hmax & Hd).
  split; [ exact Hmin | ]. split; [ exact Hmax | ].
  rewrite distance_zoomIn, Hmin by lra.
  split; [ apply Rmax_l | apply Rmax_lub; lra ].
Qed.

Lemma within_bounds_zoomOut (s : Simulation.t) :
  within_bounds s -> within_bounds (Simulation.zoomOut s).
Proof.
  intros (Hmin & Hmax & Hd).
  split; [ exact Hmin | ]. split; [ exact Hmax | ].
  rewrite distance_zoomOut, Hmax by lra.
  split; [ apply Rmin_glb; lra | apply Rmin_l ].
Qed.

Lemma within_bounds_animate (s : Simulation.t) :
  within_bounds s -> within_bounds (Simulation.animate controls_update s).
Proof.
  intros (Hmin & Hmax & Hd).
  pose proof (camera_animate controls_update s) as Hc.
  destruct (controls_keep_bounds (Simulation.controls s) (Simulation.camera_position s))
    as (Kmin & Kmax & Kd); [ rewrite Hmin, Hmax; lra | ].
  rewrite <- Hc in Kmin, Kmax, Kd. cbn [fst snd] in Kmin, Kmax, Kd.
  unfold within_bounds, Simulation.distance.
  rewrite Kmin, Kmax, Hmin, Hmax. rewrite Hmin, Hmax in Kd.
  split; [ reflexivity | ]. split; [ reflexivity | exact Kd ].
Qed.

Lemma within_bounds_step (pg : Main.t) (ev : Main.event) :
  within_bounds (Main.simulation pg) ->
  within_bounds (Main.simulation (Main.step controls_update pg ev)).
Proof.
  intros H. destruct ev; cbn [Main.step Main.simulation].
  - apply within_bounds_zoomIn. exact H.
  - apply within_bounds_zoomOut. exact H.
  - exact H.
  - exact H.
  - destruct (Main.hooked pg); cbn [Main.simulation];
      apply within_bounds_animate; exact H.
Qed.

(** In every run of the page from [init] the camera is between [10] and
    [300] away from the target, so never on it, and both zoom steps set the
    distance by their formula. *)
Lemma zoom_formula_in_every_run (random : nat -> R) (s : Simulation.t)
    (evs : list Main.event) :
  Simulation.init random = JS.Returns s ->
  let s' := Main.simulation (Main.run controls_update (Main.start s) evs) in
  within_bounds s'
  /\ Simulation.distance (Simulation.zoomIn s') = Rmax 10 (Simulation.distance s' * 0.8)
  /\ Simulation.distance (Simulation.zoomOut s') = Rmin 300 (Simulation.distance s' * 1.25).
Proof.
  intros Hinit.
  assert (Hrun : forall (l : list Main.event) (pg : Main.t),
             within_bounds (Main.simulation pg) ->
             within_bounds (Main.simulation (Main.run controls_update pg l))).
  { induction l as [ | ev l IH]; intros pg H; [ exact H | ].
    apply (IH (Main.step controls_update pg ev)). apply within_bounds_step. exact H. }
  pose proof (Hrun evs (Main.start s) (within_bounds_init random s Hinit)) as Hw.
  cbv zeta. split; [ exact Hw | ].
  destruct Hw as (Hmin & Hmax & Hd).
  rewrite distance_zoomIn, distance_zoomOut, Hmin, Hmax by lra.
  split; reflexivity.
Qed.

End BoundedRuns.

(** Orbit controls that clamp the distance keep the bounds. *)
Lemma clamping_controls_keep_bounds (c : OrbitControls.t) (p : Vector3.t) :
  0 < OrbitControls.minDistance c <= OrbitControls.maxDistance c ->
  OrbitControls.minDistance (fst (clamping_controls c p)) = OrbitControls.minDistance c
  /\ OrbitControls.maxDistance (fst (clamping_controls c p)) = OrbitControls.maxDistance c
  /\ OrbitControls.minDistance c
     <= Vector3.length (Vector3.sub (snd (clamping_controls c p))
                          (OrbitControls.target (fst (clamping_controls c p))))
     <= OrbitControls.maxDistance c.
Proof.
  intros Hb. unfold clamping_controls.
  destruct (Req_dec_T (Vector3.length (Vector3.sub p (OrbitControls.target c))) 0)
    as [ Hz | Hnz ]; cbn [fst snd];
    (split; [ reflexivity | ]); (split; [ reflexivity | ]);
    rewrite sub_add_cancel.
  - unfold Vector3.length. cbn [Vector3.x Vector3.y Vector3.z].
    replace (0 * 0 + 0 * 0 + OrbitControls.minDistance c * OrbitControls.minDistance c)
      with (OrbitControls.minDistance c * OrbitControls.minDistance c) by ring.
    rewrite sqrt_square by lra. lra.
  - rewrite length_normalize_scaled.
    + split; [ apply Rmax_l | ].
      apply Rmax_lub; [ lra | apply Rmin_l ].
    + exact Hnz.
    + apply Rle_trans with (OrbitControls.minDistance c); [ lra | apply Rmax_l ].
Qed.

(** With orbit controls that clamp the distance, every run of the page from
    [init] keeps the camera between [10] and [300] away from the target,
    and both zoom steps set the distance by their formula. *)
Lemma zoom_formula_with_clamping_controls (random : nat -> R) (s : Simulation.t)
    (evs : list Main.event) :
  Simulation.init random = JS.Returns s ->
  let s' := Main.simulation (Main.run clamping_controls (Main.start s) evs) in
  within_bounds s'
  /\ Simulation.distance (Simulation.zoomIn s') = Rmax 10 (Simulation.distance s' * 0.8)
  /\ Simulation.distance (Simulation.zoomOut s') = Rmin 300 (Simulation.distance s' * 1.25).
Proof.
  exact (zoom_formula_in_every_run clamping_controls clamping_controls_keep_bounds
           random s evs).
Qed.

(** ** The properties at the concrete runs *)

(** Mercury, [0.02] short of a quarter turn, is at [(-2.06, 0, b)] after one
    tick. *)
Lemma orbit_position_formula_witness :
  exists p' : Planet.t,
    nth_error (Simulation.planets (Simulation.animate idle_controls quarter_simulation)) 1
    = Some p'
    /\ Planet.angle p' = PI / 2
    /\ Mesh.position (Planet.mesh p')
      = Vector3.mk (- 2.06) 0 (10 * sqrt (1 - 0.206 ^ 2)).
Proof.
  pose (row := Body.mk "Mercury" 10 0.4 (0.7, 0.7, 0.7) 4.0 0.206).
  pose (p := Simulation.create_planet quarter_random 1 row).
  assert (H : nth_error (Simulation.planets quarter_simulation) 1 = Some p)
    by reflexivity.
  assert (Hi : 1%nat <> 0%nat) by discriminate.
  destruct (orbit_position_formula idle_controls quarter_simulation 1 p Hi H)
    as (p' & Hn & _ & _ & Hscenario).
  assert (Hangle : Planet.angle p' = PI / 2).
  { rewrite (nth_planet_animate idle_controls _ _ _ H) in Hn.
    injection Hn as <-.
    destruct (animate_planet_orbiting
                (Simulation.isPaused quarter_simulation)
                (Simulation.time (Simulation.animate idle_controls quarter_simulation))
                1 p Hi) as [Ha _].
    refine (eq_trans Ha _).
    change (quarter_random 1%nat * PI * 2 + 4.0 * 0.005 = PI / 2).
    unfold quarter_random. field. apply PI_neq0. }
  exists p'. split; [ exact Hn | ]. split; [ exact Hangle | ].
  apply Hscenario; [ reflexivity | reflexivity | exact Hangle ].
Defined.

(** The Sun of the first simulation is at the origin after a tick and after
    a frame of the page. *)
Lemma central_body_pinned_witness :
  (exists p' : Planet.t,
      nth_error (Simulation.planets (Simulation.animate idle_controls first_simulation)) 0
      = Some p'
      /\ Mesh.position (Planet.mesh p') = Vector3.mk 0 0 0)
  /\ (forall uiPaused hooked : bool,
        exists p' : Planet.t,
          nth_error
            (Simulation.planets
               (Main.simulation
                  (Main.step idle_controls (Main.mk first_simulation uiPaused hooked)
                     Main.AnimationFrame))) 0 = Some p'
          /\ Mesh.position (Planet.mesh p') = Vector3.mk 0 0 0).
Proof.
  exact (central_body_pinned idle_controls first_simulation
           (Simulation.create_planet no_random 0
              (Body.mk "Sun" 0 5.0 (1.0, 0.6, 0.1) 0 0))
           eq_refl).
Defined.

(** Three ticks of the paused simulation: clock at [0], phases as before,
    three frames rendered. *)
Lemma paused_ticks_freeze_witness :
  let s' := iter 3 (Simulation.animate idle_controls) paused_simulation in
  Simulation.isPaused paused_simulation = true
  /\ Simulation.time s' = 0
  /\ map Planet.angle (Simulation.planets s')
    = map Planet.angle (Simulation.planets paused_simulation)
  /\ Simulation.planets (Simulation.animate idle_controls s')
    = Simulation.planets (Simulation.animate idle_controls paused_simulation)
  /\ Simulation.frames s' = 3%nat.
Proof.
  intros s'.
  assert (Hp : Simulation.isPaused paused_simulation = true) by reflexivity.
  destruct (paused_ticks_freeze idle_controls paused_simulation 3 Hp)
    as (_ & Ht & Ha & Hs & _ & Hf & _).
  split; [ exact Hp | ]. split; [ exact Ht | ]. split; [ exact Ha | ].
  split; [ exact Hs | exact Hf ].
Defined.

(** The camera of the first simulation, at distance [100]: three steps in
    give [80], [64], [51.2]; one step out gives [125]. *)
Lemma zoom_step_distance_witness :
  Simulation.distance first_simulation = 100
  /\ Simulation.distance (Simulation.zoomIn first_simulation) = 80
  /\ Simulation.distance (Simulation.zoomIn (Simulation.zoomIn first_simulation)) = 64
  /\ Simulation.distance
      (Simulation.zoomIn (Simulation.zoomIn (Simulation.zoomIn first_simulation)))
    = 51.2
  /\ Simulation.distance (Simulation.zoomOut first_simulation) = 125.
Proof.
  assert (Hmax : 0 <= OrbitControls.maxDistance (Simulation.controls first_simulation)).
  { change (0 <= 300). lra. }
  destruct (zoom_step_distance first_simulation first_camera_off_target Hmax)
    as (_ & (Hout & _) & Hthree).
  destruct (Hthree distance_first_simulation eq_refl) as (H1 & H2 & H3).
  split; [ exact distance_first_simulation | ].
  split; [ exact H1 | ]. split; [ exact H2 | ]. split; [ exact H3 | ].
  rewrite Hout, distance_first_simulation.
  change (OrbitControls.maxDistance (Simulation.controls first_simulation)) with 300.
  rewrite Rmin_right; lra.
Defined.

(** From the first simulation the steps in settle at [10] and the steps out
    at [300]. *)
Lemma zoom_saturates_witness :
  (forall n : nat, (1 <= n)%nat ->
     10 <= Simulation.distance (iter n Simulation.zoomIn first_simulation))
  /\ (exists N : nat, forall n : nat, (N <= n)%nat ->
     Simulation.distance (iter n Simulation.zoomIn first_simulation) = 10)
  /\ (forall n : nat, (1 <= n)%nat ->
     Simulation.distance (iter n Simulation.zoomOut first_simulation) <= 300)
  /\ (exists N : nat, forall n : nat, (N <= n)%nat ->
     Simulation.distance (iter n Simulation.zoomOut first_simulation) = 300).
Proof.
  assert (Hmin : 0 < OrbitControls.minDistance (Simulation.controls first_simulation)).
  { change (0 < 10). lra. }
  assert (Hmax : 0 < OrbitControls.maxDistance (Simulation.controls first_simulation)).
  { change (0 < 300). lra. }
  exact (zoom_saturates first_simulation first_camera_off_target Hmin Hmax).
Defined.

(** Mercury of the first simulation moves on by [4.0 * 0.005] in a tick. *)
Lemma phase_advance_witness :
  exists p' : Planet.t,
    nth_error (Simulation.planets (Simulation.animate idle_controls first_simulation)) 1
    = Some p'
    /\ Planet.angle p' = 0 * PI * 2 + 4.0 * 0.005.
Proof.
  pose (row := Body.mk "Mercury" 10 0.4 (0.7, 0.7, 0.7) 4.0 0.206).
  pose (p := Simulation.create_planet no_random 1 row).
  assert (H : nth_error (Simulation.planets first_simulation) 1 = Some p)
    by reflexivity.
  destruct (phase_advance idle_controls first_simulation 1 p H)
    as (p' & Hn & _ & Hstep).
  exists p'. split; [ exact Hn | ].
  assert (Hi : 1%nat <> 0%nat) by discriminate.
  destruct (Hstep Hi eq_refl) as [Ha _]. exact Ha.
Defined.

(** In and out again, and out and in again, from distance [100]. *)
Lemma zoom_round_trip_witness :
  Simulation.distance (Simulation.zoomOut (Simulation.zoomIn first_simulation)) = 100
  /\ Simulation.distance (Simulation.zoomIn (Simulation.zoomOut first_simulation)) = 100.
Proof.
  destruct (zoom_round_trip first_simulation) as [Hio Hoi].
  rewrite distance_first_simulation in Hio, Hoi.
  change (OrbitControls.minDistance (Simulation.controls first_simulation))
    with 10 in Hio, Hoi.
  change (OrbitControls.maxDistance (Simulation.controls first_simulation))
    with 300 in Hio, Hoi.
  split; [ apply Hio | apply Hoi ]; lra.
Defined.

(** The label of Mercury after a tick of the first simulation. *)
Lemma label_anchor_witness :
  exists p' : Planet.t,
    nth_error (Simulation.planets (Simulation.animate idle_controls first_simulation)) 1
    = Some p'
    /\ Planet.label p'
      = Some (Vector3.add (Mesh.position (Planet.mesh p')) (Vector3.mk 0 (0.4 + 2.0) 0)).
Proof.
  pose (row := Body.mk "Mercury" 10 0.4 (0.7, 0.7, 0.7) 4.0 0.206).
  pose (p := Simulation.create_planet no_random 1 row).
  assert (H : nth_error (Simulation.planets first_simulation) 1 = Some p)
    by reflexivity.
  assert (Hl : Planet.label p <> None) by discriminate.
  destruct (label_anchor idle_controls first_simulation 1 p H Hl)
    as (p' & Hn & Hlabel & _).
  exists p'. split; [ exact Hn | exact Hlabel ].
Defined.

(** ** Where the stated behaviour is not the behaviour of the code *)

Section Binary64Runs.

Import PrimFloat.
Local Open Scope float_scope.

(** The three steps in from the initial camera, in binary64: the distances
    [zoomIn] computes are [80], [64] and [51.2] (the binary64 value of that
    literal); the camera ends at distance [80], [64] and then one rounding
    step above, at [51.20000000000001]. *)
Lemma binary64_three_zoom_steps :
  Binary64.distance Binary64.initial = 100
  /\ map (fun n => Binary64.zoomIn_newDist (Binary64.after_zoomIn_clicks n))
         [0; 1; 2]%nat
     = [80; 64; 0x1.999999999999ap+5]
  /\ map (fun n => Binary64.distance (Binary64.after_zoomIn_clicks n))
         [1; 2; 3]%nat
     = [80; 64; 0x1.999999999999bp+5].
Proof. vm_compute. repeat split. Qed.

(** From the initial camera, in binary64, the clicks on Zoom In do not
    settle at [minDistance = 10]: the eleventh leaves the camera at distance
    [10.000000000000002], the twelfth at [9.999999999999998], which is
    below [minDistance], and no number of clicks up to [64] leaves it at
    exactly [10]. *)
Lemma binary64_zoomIn_misses_minDistance :
  Binary64.minDistance Binary64.initial = 10
  /\ Binary64.distance (Binary64.after_zoomIn_clicks 11) = 0x1.4000000000001p+3
  /\ Binary64.distance (Binary64.after_zoomIn_clicks 12) = 0x1.3ffffffffffffp+3
  /\ (Binary64.distance (Binary64.after_zoomIn_clicks 12)
      <? Binary64.minDistance (Binary64.after_zoomIn_clicks 12)) = true
  /\ Binary64.never_at 10 (seq 0 65) = true.
Proof. vm_compute. repeat split. Qed.

(** After two clicks on Zoom In from the initial camera, in binary64, the
    camera is at distance [64], with [minDistance < 0.8 * 64] and
    [64 <= maxDistance]; Zoom In and then Zoom Out leave it at
    [64.00000000000001], not at [64]. *)
Lemma binary64_zoom_round_trip_drifts :
  Binary64.distance (Binary64.after_zoomIn_clicks 2) = 64
  /\ (Binary64.minDistance (Binary64.after_zoomIn_clicks 2)
      <? Binary64.zoomIn_newDist (Binary64.after_zoomIn_clicks 2)) = true
  /\ (Binary64.distance (Binary64.after_zoomIn_clicks 2)
      <=? Binary64.maxDistance (Binary64.after_zoomIn_clicks 2)) = true
  /\ Binary64.distance
       (Binary64.zoomOut (Binary64.zoomIn (Binary64.after_zoomIn_clicks 2)))
     = 0x1.0000000000001p+6
  /\ (Binary64.distance
        (Binary64.zoomOut (Binary64.zoomIn (Binary64.after_zoomIn_clicks 2)))
      =? Binary64.distance (Binary64.after_zoomIn_clicks 2)) = false.
Proof. vm_compute. repeat split. Qed.

End Binary64Runs.

(** A click on Zoom In moves the camera at once, from distance [100] to
    [80], with no frame rendered; a second click before any frame moves it
    again, to [64]; and the frame that follows applies nothing more. *)
Lemma zoom_click_not_queued :
  let page := Main.start first_simulation in
  Simulation.distance (Main.simulation page) = 100
  /\ Simulation.distance
      (Main.simulation (Main.run idle_controls page [Main.ClickZoomIn])) = 80
  /\ Simulation.frames
      (Main.simulation (Main.run idle_controls page [Main.ClickZoomIn])) = 0%nat
  /\ Simulation.distance
      (Main.simulation
         (Main.run idle_controls page [Main.ClickZoomIn; Main.ClickZoomIn])) = 64
  /\ Simulation.distance
      (Main.simulation
         (Main.run idle_controls page
            [Main.ClickZoomIn; Main.ClickZoomIn; Main.AnimationFrame])) = 64.
Proof.
  cbv zeta.
  split; [ exact distance_first_simulation | ].
  split; [ exact distance_first_zoomIn | ].
  split; [ reflexivity | ].
  split; [ exact distance_first_zoomIn_twice | ].
  exact distance_first_zoomIn_twice.
Qed.

(** * Further properties of the code *)

(** ** The orbit: distance to the Sun, and the line [init] draws *)

Section OrbitGeometry.

Variable controls_update :
  OrbitControls.t -> Vector3.t -> OrbitControls.t * Vector3.t.

Local Abbreviation animate := (Simulation.animate controls_update).

(** The position the orbit formula gives is at distance [a (1 - e cos phi)]
    from the origin. *)
Lemma ellipse_focus_distance (a e phi : R) :
  0 <= a -> 0 <= e <= 1 ->
  Vector3.length
    (Vector3.mk (cos phi * a - a * e) 0 (sin phi * (a * sqrt (1 - e * e))))
  = a * (1 - e * cos phi).
Proof.
  intros Ha He. unfold Vector3.length. cbn [Vector3.x Vector3.y Vector3.z].
  pose proof (COS_bound phi) as Hc.
  assert (Hs : sqrt (1 - e * e) * sqrt (1 - e * e) = 1 - e * e)
    by (apply sqrt_sqrt; nra).
  pose proof (sin2_cos2 phi) as Hsc. unfold Rsqr in Hsc.
  replace ((cos phi * a - a * e) * (cos phi * a - a * e) + 0 * 0
           + sin phi * (a * sqrt (1 - e * e)) * (sin phi * (a * sqrt (1 - e * e))))
    with (Rsqr (a * (1 - e * cos phi))).
  - apply sqrt_Rsqr. apply Rmult_le_pos; [ exact Ha | nra ].
  - unfold Rsqr.
    replace (sin phi * (a * sqrt (1 - e * e)) * (sin phi * (a * sqrt (1 - e * e))))
      with (a * a * (sin phi * sin phi) * (sqrt (1 - e * e) * sqrt (1 - e * e)))
      by ring.
    rewrite Hs. replace (sin phi * sin phi) with (1 - cos phi * cos phi) by lra.
    ring.
Qed.

(** X1: after a tick, a body at an index other than 0 with [a >= 0] and
    [0 <= e <= 1] is at distance [a (1 - e cos phase)] from the origin,
    where [animate] keeps the Sun: never nearer than [a (1 - e)] and never
    farther than [a (1 + e)]. *)
Theorem distance_to_sun (s : Simulation.t) (i : nat) (p : Planet.t) :
  i <> 0%nat ->
  nth_error (Simulation.planets s) i = Some p ->
  0 <= Body.r (Planet.data p) ->
  0 <= Body.e (Planet.data p) <= 1 ->
  exists p' : Planet.t,
    nth_error (Simulation.planets (animate s)) i = Some p'
    /\ (let a := Body.r (Planet.data p) in
        let e := Body.e (Planet.data p) in
        let d := Vector3.length (Mesh.position (Planet.mesh p')) in
        d = a * (1 - e * cos (Planet.angle p'))
        /\ a * (1 - e) <= d <= a * (1 + e)).
Proof.
  intros Hi H Ha He. eexists. split; [ apply nth_planet_animate; exact H | ].
  destruct (animate_planet_orbiting (Simulation.isPaused s)
              (Simulation.time (animate s)) i p Hi) as [_ Hpos].
  cbv zeta in Hpos. cbv zeta. rewrite Hpos.
  rewrite ellipse_focus_distance by assumption.
  split; [ reflexivity | ].
  pose proof (COS_bound (Planet.angle
    (Simulation.animate_planet (Simulation.isPaused s)
       (Simulation.time (animate s)) i p))) as Hc.
  split; apply Rmult_le_compat_l; try exact Ha; nra.
Qed.

Lemma nth_error_getPoints (divisions d : nat) (getPoint : R -> R * R) :
  (d <= divisions)%nat ->
  nth_error (Scenery.getPoints divisions getPoint) d
  = Some (getPoint (INR d / INR divisions)).
Proof.
  intros Hd. unfold Scenery.getPoints.
  rewrite nth_error_map, nth_error_seq.
  destruct (Nat.ltb_spec d (S divisions)) as [ _ | Hge ]; [ reflexivity | lia ].
Qed.

(** The point number [d] of the orbit line, where the scene shows it. *)
Lemma nth_error_orbit_line (body : Body.t) (d : nat) :
  (d <= 128)%nat ->
  let a := Body.r body in
  let e := Body.e body in
  let t := INR d / INR 128 * (2 * PI) in
  nth_error (Scenery.orbit_line body) d
  = Some (Vector3.mk (cos (- t) * a - a * e) 0 (sin (- t) * (a * sqrt (1 - e * e)))).
Proof.
  intros Hd a e t. unfold Scenery.orbit_line.
  rewrite nth_error_map, (nth_error_getPoints 128 d _ Hd).
  cbn [option_map]. unfold Scenery.EllipseCurve_getPoint, Scenery.rotateX.
  cbn [fst snd Vector3.x Vector3.y Vector3.z].
  rewrite or_self_zero. fold a e.
  replace (0 + INR d / INR 128 * (2 * PI - 0)) with t by (unfold t; ring).
  replace (- PI / 2) with (- (PI / 2)) by field.
  rewrite cos_neg, sin_neg, cos_neg, sin_neg, cos_PI2, sin_PI2.
  f_equal. f_equal; ring.
Qed.

(** The curve of the line, where the scene shows it. *)
Lemma orbit_curve_at (body : Body.t) (t : R) :
  let a := Body.r body in
  let e := Body.e body in
  Scenery.orbit_curve body t
  = Vector3.mk (cos (- (t * (2 * PI))) * a - a * e) 0
               (sin (- (t * (2 * PI))) * (a * sqrt (1 - e * e))).
Proof.
  intros a e. unfold Scenery.orbit_curve, Scenery.EllipseCurve_getPoint, Scenery.rotateX.
  cbn [fst snd Vector3.x Vector3.y Vector3.z].
  rewrite or_self_zero. fold a e.
  replace (0 + t * (2 * PI - 0)) with (t * (2 * PI)) by ring.
  replace (- PI / 2) with (- (PI / 2)) by field.
  rewrite cos_neg, sin_neg, cos_neg, sin_neg, cos_PI2, sin_PI2.
  f_equal; ring.
Qed.

(** The points of the line are points of the curve. *)
Lemma orbit_line_on_curve (body : Body.t) (d : nat) :
  (d <= 128)%nat ->
  nth_error (Scenery.orbit_line body) d
  = Some (Scenery.orbit_curve body (INR d / INR 128)).
Proof.
  intros Hd. unfold Scenery.orbit_line.
  rewrite nth_error_map, (nth_error_getPoints 128 d _ Hd). reflexivity.
Qed.

(** X2: the orbit line [init] draws for a body has 129 points, the last
    one on the first one, all of them points of the body's [EllipseCurve]
    laid flat; after every tick, paused or not, the body is on that same
    curve, at the parameter [- phase / (2 pi)]; and whenever its phase is
    [d / 128] of a turn short of a whole number of turns, the body is
    exactly on point number [d] of its line (in exact real arithmetic). *)
Theorem orbit_line_is_the_path (s : Simulation.t) (i : nat) (p : Planet.t) :
  i <> 0%nat ->
  nth_error (Simulation.planets s) i = Some p ->
  let line := Scenery.orbit_line (Planet.data p) in
  List.length line = 129%nat
  /\ nth_error line 128 = nth_error line 0
  /\ (forall d : nat, (d <= 128)%nat ->
        nth_error line d
        = Some (Scenery.orbit_curve (Planet.data p) (INR d / INR 128)))
  /\ exists p' : Planet.t,
       nth_error (Simulation.planets (animate s)) i = Some p'
       /\ Mesh.position (Planet.mesh p')
          = Scenery.orbit_curve (Planet.data p) (- Planet.angle p' / (2 * PI))
       /\ (forall d turns : nat, (d <= 128)%nat ->
             Planet.angle p' = 2 * INR turns * PI - INR d / INR 128 * (2 * PI) ->
             nth_error line d = Some (Mesh.position (Planet.mesh p'))).
Proof.
  intros Hi H line. unfold line. split; [ | split; [ | split ] ].
  - unfold Scenery.orbit_line, Scenery.getPoints.
    rewrite !length_map, length_seq. reflexivity.
  - rewrite (nth_error_orbit_line _ 128), (nth_error_orbit_line _ 0) by lia.
    cbv zeta. f_equal.
    replace (- (INR 128 / INR 128 * (2 * PI))) with (- (2 * PI))
      by (field; apply not_0_INR; discriminate).
    replace (- (INR 0 / INR 128 * (2 * PI))) with 0
      by (simpl INR at 1; field; apply not_0_INR; discriminate).
    rewrite cos_neg, sin_neg, cos_2PI, sin_2PI, cos_0, sin_0.
    f_equal; ring.
  - intros d Hd. apply orbit_line_on_curve. exact Hd.
  - eexists. split; [ apply nth_planet_animate; exact H | ].
    destruct (animate_planet_orbiting (Simulation.isPaused s)
                (Simulation.time (animate s)) i p Hi) as [_ Hpos].
    cbv zeta in Hpos. rewrite Hpos. split.
    + rewrite orbit_curve_at. cbv zeta.
      set (phi := Planet.angle _).
      replace (- (- phi / (2 * PI) * (2 * PI))) with phi
        by (field; apply PI_neq0).
      reflexivity.
    + intros d turns Hd Hangle.
      rewrite (nth_error_orbit_line _ d Hd). cbv zeta. rewrite Hangle.
      replace (2 * INR turns * PI - INR d / INR 128 * (2 * PI))
        with (- (INR d / INR 128 * (2 * PI)) + 2 * INR turns * PI) by ring.
      rewrite cos_period, sin_period. reflexivity.
Qed.

End OrbitGeometry.

(** ** Ticks while running *)

Section RunningTicks.

Variable controls_update :
  OrbitControls.t -> Vector3.t -> OrbitControls.t * Vector3.t.

Local Abbreviation animate := (Simulation.animate controls_update).

Lemma isPaused_iter_animate (n : nat) (s : Simulation.t) :
  Simulation.isPaused (iter n animate s) = Simulation.isPaused s.
Proof.
  induction n as [ | n IH]; [ reflexivity | ].
  cbn [iter]. rewrite isPaused_animate. exact IH.
Qed.

(** What one turn of the loop does to phase and spin when not paused. *)
Lemma animate_planet_running (now : R) (i : nat) (p : Planet.t) :
  let p' := Simulation.animate_planet false now i p in
  (i = 0%nat ->
   Planet.angle p' = Planet.angle p
   /\ Mesh.rotation_y (Planet.mesh p') = Mesh.rotation_y (Planet.mesh p))
  /\ (i <> 0%nat ->
      Planet.angle p' = Planet.angle p + Body.speed (Planet.data p) * 0.005
      /\ Mesh.rotation_y (Planet.mesh p') = Mesh.rotation_y (Planet.mesh p) + 0.01).
Proof.
  cbv zeta. unfold Simulation.animate_planet.
  rewrite mesh_update_label, angle_update_label.
  destruct i as [ | i]; cbn [Nat.eqb negb Planet.angle Planet.mesh Mesh.rotation_y];
    split; intros Hi; try congruence; split; reflexivity.
Qed.

(** X3: [n] ticks in a row with the pause flag clear advance the clock by
    [n * 0.01], render [n] frames, and move every body at an index other
    than 0 on by [n * speed * 0.005] in phase and [n * 0.01] in spin; the
    body at index 0 keeps its phase and its spin, and every body keeps its
    table row. *)
Theorem running_ticks (s : Simulation.t) (n i : nat) (p : Planet.t) :
  Simulation.isPaused s = false ->
  nth_error (Simulation.planets s) i = Some p ->
  Simulation.time (iter n animate s) = Simulation.time s + INR n * 0.01
  /\ Simulation.frames (iter n animate s) = (Simulation.frames s + n)%nat
  /\ exists p' : Planet.t,
       nth_error (Simulation.planets (iter n animate s)) i = Some p'
       /\ Planet.data p' = Planet.data p
       /\ (i = 0%nat ->
           Planet.angle p' = Planet.angle p
           /\ Mesh.rotation_y (Planet.mesh p') = Mesh.rotation_y (Planet.mesh p))
       /\ (i <> 0%nat ->
           Planet.angle p'
           = Planet.angle p + INR n * (Body.speed (Planet.data p) * 0.005)
           /\ Mesh.rotation_y (Planet.mesh p')
              = Mesh.rotation_y (Planet.mesh p) + INR n * 0.01).
Proof.
  intros Hrun H. induction n as [ | n (IHt & IHf & p1 & IHn & IHd & IH0 & IHi)].
  - cbn [iter INR]. split; [ lra | ]. split; [ lia | ].
    exists p. split; [ exact H | ]. split; [ reflexivity | ].
    split; intros _; split; lra.
  - cbn [iter]. set (s1 := iter n animate s) in *.
    assert (Hrun1 : Simulation.isPaused s1 = false)
      by (unfold s1; rewrite isPaused_iter_animate; exact Hrun).
    rewrite S_INR. split; [ rewrite time_animate, Hrun1, IHt; cbn [negb]; lra | ].
    split; [ rewrite frames_animate, IHf; lia | ].
    eexists. split; [ apply nth_planet_animate; exact IHn | ].
    rewrite Hrun1.
    destruct (animate_planet_running (Simulation.time (animate s1)) i p1) as [R0 Ri].
    split; [ rewrite data_animate_planet; exact IHd | ]. split.
    + intros Hi. destruct (R0 Hi) as [Ra Rr]. destruct (IH0 Hi) as [Ia Ir].
      split; congruence.
    + intros Hi. destruct (Ri Hi) as [Ra Rr]. destruct (IHi Hi) as [Ia Ir].
      rewrite Ra, Rr, Ia, Ir, IHd. split; ring.
Qed.

End RunningTicks.

(** ** Runs of the page: what pausing and zooming reach *)

Section PageRuns.

Variable controls_update :
  OrbitControls.t -> Vector3.t -> OrbitControls.t * Vector3.t.

Local Abbreviation animate := (Simulation.animate controls_update).
Local Abbreviation step := (Main.step controls_update).
Local Abbreviation run := (Main.run controls_update).

Lemma run_cons (pg : Main.t) (ev : Main.event) (evs : list Main.event) :
  run pg (ev :: evs) = run (step pg ev) evs.
Proof. reflexivity. Qed.

Lemma step_frame (pg : Main.t) :
  step pg Main.AnimationFrame
  = Main.mk (animate (polled pg)) (Main.isPaused pg) (Main.hooked pg).
Proof. unfold Main.step, polled. destruct (Main.hooked pg); reflexivity. Qed.

Lemma isPaused_polled (pg : Main.t) :
  Simulation.isPaused (polled pg)
  = if Main.hooked pg then Main.isPaused pg
    else Simulation.isPaused (Main.simulation pg).
Proof. unfold polled. destruct (Main.hooked pg); reflexivity. Qed.

Lemma time_polled (pg : Main.t) :
  Simulation.time (polled pg) = Simulation.time (Main.simulation pg).
Proof. unfold polled. destruct (Main.hooked pg); reflexivity. Qed.

Lemma planets_polled (pg : Main.t) :
  Simulation.planets (polled pg) = Simulation.planets (Main.simulation pg).
Proof. unfold polled. destruct (Main.hooked pg); reflexivity. Qed.

Lemma frames_polled (pg : Main.t) :
  Simulation.frames (polled pg) = Simulation.frames (Main.simulation pg).
Proof. unfold polled. destruct (Main.hooked pg); reflexivity. Qed.

Lemma view_polled (pg : Main.t) :
  Simulation.controls (polled pg) = Simulation.controls (Main.simulation pg)
  /\ Simulation.camera_position (polled pg)
     = Simulation.camera_position (Main.simulation pg).
Proof. unfold polled. destruct (Main.hooked pg); split; reflexivity. Qed.

(** The phase a turn of the loop leaves, for either value of the flag. *)
Lemma angle_animate_planet (paused : bool) (now : R) (i : nat) (p : Planet.t) :
  Planet.angle (Simulation.animate_planet paused now i p)
  = if Nat.eqb i 0 then Planet.angle p
    else Planet.angle p
         + INR (if paused then 0 else 1) * (Body.speed (Planet.data p) * 0.005).
Proof.
  unfold Simulation.animate_planet. rewrite angle_update_label.
  destruct i as [ | i]; cbn [Nat.eqb Planet.angle]; [ reflexivity | ].
  destruct paused; cbn [negb INR]; lra.
Qed.

(** X4: over any sequence of events of the page, the clock has advanced by
    [0.01] and every body at an index other than 0 by [speed * 0.005] for
    each frame that ran unpaused, and by nothing else: zoom clicks, pause
    clicks and paused frames leave clock and phases alone, and the body at
    index 0 never turns. *)
Theorem phase_counts_running_frames (evs : list Main.event) :
  forall (pg : Main.t) (i : nat) (p : Planet.t),
    nth_error (Simulation.planets (Main.simulation pg)) i = Some p ->
    let n := running_frames (Main.isPaused pg) (Main.hooked pg)
               (Simulation.isPaused (Main.simulation pg)) evs in
    Simulation.time (Main.simulation (run pg evs))
    = Simulation.time (Main.simulation pg) + INR n * 0.01
    /\ exists p' : Planet.t,
         nth_error (Simulation.planets (Main.simulation (run pg evs))) i = Some p'
         /\ Planet.data p' = Planet.data p
         /\ Planet.angle p'
            = if Nat.eqb i 0 then Planet.angle p
              else Planet.angle p + INR n * (Body.speed (Planet.data p) * 0.005).
Proof.
  induction evs as [ | ev evs IH]; intros pg i p H.
  - cbn. split; [ lra | ]. exists p. split; [ exact H | ]. split; [ reflexivity | ].
    destruct (Nat.eqb i 0); lra.
  - rewrite run_cons. destruct ev.
    + exact (IH (step pg Main.ClickZoomIn) i p H).
    + exact (IH (step pg Main.ClickZoomOut) i p H).
    + exact (IH (step pg Main.ClickStop) i p H).
    + exact (IH (step pg Main.HookTimeout) i p H).
    + rewrite step_frame.
      set (b := Simulation.isPaused (polled pg)).
      assert (Hb : b = if Main.hooked pg then Main.isPaused pg
                       else Simulation.isPaused (Main.simulation pg))
        by apply isPaused_polled.
      assert (Hn : nth_error (Simulation.planets (polled pg)) i = Some p)
        by (rewrite planets_polled; exact H).
      pose proof (nth_planet_animate controls_update (polled pg) i p Hn) as Hstep.
      fold b in Hstep.
      destruct (IH (Main.mk (animate (polled pg)) (Main.isPaused pg) (Main.hooked pg))
                  i _ Hstep) as (Ht & p' & Hp' & Hd & Ha).
      cbn [Main.simulation Main.isPaused Main.hooked] in Ht, Hp', Ha.
      rewrite isPaused_animate in Ht, Ha. fold b in Ht, Ha.
      cbn [running_frames]. rewrite <- Hb. cbv zeta.
      rewrite plus_INR. split.
      * rewrite Ht, time_animate, time_polled. fold b.
        destruct b; cbn [negb INR]; lra.
      * exists p'. split; [ exact Hp' | ].
        rewrite data_animate_planet in Hd. split; [ exact Hd | ].
        rewrite Ha, angle_animate_planet, data_animate_planet.
        destruct (Nat.eqb i 0); [ reflexivity | ]. ring.
Qed.

(** X5: until the delayed hook of [main.js] is in place, the Pause button
    does not pause: from a page not yet hooked whose simulation runs, over
    any events without the hook's timeout, every frame advances the clock
    by [0.01], however often the button was clicked; the button's flag
    flips all the same. *)
Theorem frames_before_hook_ignore_pause (evs : list Main.event) :
  forall pg : Main.t,
    Main.hooked pg = false ->
    Simulation.isPaused (Main.simulation pg) = false ->
    ~ In Main.HookTimeout evs ->
    Main.hooked (run pg evs) = false
    /\ Simulation.isPaused (Main.simulation (run pg evs)) = false
    /\ Simulation.time (Main.simulation (run pg evs))
       = Simulation.time (Main.simulation pg)
         + INR (List.length (filter is_frame evs)) * 0.01.
Proof.
  induction evs as [ | ev evs IH]; intros pg Hh Hs Hno.
  - cbn. repeat split; try assumption. lra.
  - rewrite run_cons.
    assert (Hno' : ~ In Main.HookTimeout evs) by (intros Hin; apply Hno; right; exact Hin).
    destruct ev; cbn [filter is_frame].
    + apply (IH (step pg Main.ClickZoomIn)); assumption.
    + apply (IH (step pg Main.ClickZoomOut)); assumption.
    + apply (IH (step pg Main.ClickStop)); assumption.
    + exfalso. apply Hno. left. reflexivity.
    + destruct (IH (step pg Main.AnimationFrame)) as (H1 & H2 & H3).
      * rewrite step_frame. exact Hh.
      * rewrite step_frame. cbn [Main.simulation].
        rewrite isPaused_animate, isPaused_polled, Hh. exact Hs.
      * exact Hno'.
      * split; [ exact H1 | ]. split; [ exact H2 | ].
        rewrite H3, step_frame. cbn [Main.simulation List.length].
        rewrite time_animate, isPaused_polled, time_polled, Hh, Hs, S_INR.
        cbn [negb]. lra.
Qed.

(** *** Zooming and the bodies do not reach each other *)

Lemma same_bodies_refl (pg : Main.t) : same_bodies pg pg.
Proof. unfold same_bodies. repeat split; reflexivity. Qed.

Lemma polled_same_bodies (pg1 pg2 : Main.t) :
  same_bodies pg1 pg2 ->
  Simulation.isPaused (polled pg1) = Simulation.isPaused (polled pg2)
  /\ Simulation.time (polled pg1) = Simulation.time (polled pg2)
  /\ Simulation.planets (polled pg1) = Simulation.planets (polled pg2)
  /\ Simulation.frames (polled pg1) = Simulation.frames (polled pg2).
Proof.
  intros (Hp & Hh & Hsp & Ht & Hpl & Hf).
  rewrite !isPaused_polled, !time_polled, !planets_polled, !frames_polled.
  rewrite Hp, Hh, Hsp. repeat split; assumption.
Qed.

(** The same event keeps two pages alike in everything but the camera. *)
Lemma same_bodies_step (pg1 pg2 : Main.t) (ev : Main.event) :
  same_bodies pg1 pg2 -> same_bodies (step pg1 ev) (step pg2 ev).
Proof.
  intros H. pose proof H as (Hp & Hh & Hsp & Ht & Hpl & Hf).
  destruct ev; try (unfold same_bodies; cbn; repeat split; congruence).
  rewrite !step_frame.
  destruct (polled_same_bodies pg1 pg2 H) as (Qp & Qt & Qpl & Qf).
  unfold same_bodies. cbn [Main.simulation Main.isPaused Main.hooked].
  rewrite !isPaused_animate, !time_animate, !frames_animate, !planets_animate.
  rewrite !time_animate, Qp, Qt, Qpl, Qf. repeat split; assumption.
Qed.

(** A zoom click on one of them keeps them alike too. *)
Lemma same_bodies_zoom (pg1 pg2 : Main.t) (ev : Main.event) :
  is_zoom ev = true -> same_bodies pg1 pg2 -> same_bodies (step pg1 ev) pg2.
Proof.
  intros Hz H. destruct ev; try discriminate Hz; exact H.
Qed.

Lemma same_bodies_run (evs : list Main.event) :
  forall pg1 pg2 : Main.t,
    same_bodies pg1 pg2 ->
    same_bodies (run pg1 evs) (run pg2 (filter (fun ev => negb (is_zoom ev)) evs)).
Proof.
  induction evs as [ | ev evs IH]; intros pg1 pg2 H; [ exact H | ].
  rewrite run_cons. cbn [filter].
  destruct (is_zoom ev) eqn:Hz; cbn [negb].
  - apply IH. apply same_bodies_zoom; assumption.
  - rewrite run_cons. apply IH. apply same_bodies_step. exact H.
Qed.

(** X7: zooming never reaches the bodies: a run of the page leaves the
    planets (phases, positions, labels, spins), the clock, the pause flags
    and the frame count exactly as the same run with every zoom click
    taken out. *)
Theorem zoom_never_moves_bodies (pg : Main.t) (evs : list Main.event) :
  let with_zoom := run pg evs in
  let without := run pg (filter (fun ev => negb (is_zoom ev)) evs) in
  Simulation.planets (Main.simulation with_zoom)
  = Simulation.planets (Main.simulation without)
  /\ Simulation.time (Main.simulation with_zoom)
     = Simulation.time (Main.simulation without)
  /\ Simulation.frames (Main.simulation with_zoom)
     = Simulation.frames (Main.simulation without)
  /\ Simulation.isPaused (Main.simulation with_zoom)
     = Simulation.isPaused (Main.simulation without)
  /\ Main.isPaused with_zoom = Main.isPaused without.
Proof.
  destruct (same_bodies_run evs pg pg (same_bodies_refl pg))
    as (Hp & Hh & Hsp & Ht & Hpl & Hf).
  cbv zeta. repeat split; assumption.
Qed.

(** *** Pausing does not reach the camera *)

Lemma same_view_step (pg1 pg2 : Main.t) (ev : Main.event) :
  same_view pg1 pg2 -> same_view (step pg1 ev) (step pg2 ev).
Proof.
  intros [Hc Hp]. destruct ev; try (split; assumption).
  - unfold same_view, Main.step, Simulation.zoomIn. cbn. rewrite Hc, Hp.
    split; reflexivity.
  - unfold same_view, Main.step, Simulation.zoomOut. cbn. rewrite Hc, Hp.
    split; reflexivity.
  - rewrite !step_frame. unfold same_view. cbn [Main.simulation].
    pose proof (camera_animate controls_update (polled pg1)) as H1.
    pose proof (camera_animate controls_update (polled pg2)) as H2.
    destruct (view_polled pg1) as [V1 W1]. destruct (view_polled pg2) as [V2 W2].
    rewrite V1, W1 in H1. rewrite V2, W2, <- Hc, <- Hp, <- H1 in H2.
    injection H2 as E1 E2. split; congruence.
Qed.

Lemma same_view_other (pg1 pg2 : Main.t) (ev : Main.event) :
  moves_camera ev = false -> same_view pg1 pg2 -> same_view (step pg1 ev) pg2.
Proof.
  intros Hm H. destruct ev; try discriminate Hm; exact H.
Qed.

Lemma same_view_run (evs : list Main.event) :
  forall pg1 pg2 : Main.t,
    same_view pg1 pg2 ->
    same_view (run pg1 evs) (run pg2 (filter moves_camera evs)).
Proof.
  induction evs as [ | ev evs IH]; intros pg1 pg2 H; [ exact H | ].
  rewrite run_cons. cbn [filter].
  destruct (moves_camera ev) eqn:Hm.
  - rewrite run_cons. apply IH. apply same_view_step. exact H.
  - apply IH. apply same_view_other; assumption.
Qed.

(** X8: pausing never reaches the camera: after a run of the page the
    camera and the orbit controls are where the zoom clicks and the frames
    of the run alone put them; the pause clicks and the hook can be taken
    out without moving the camera, so zoom and orbit stay live while the
    simulation is frozen. *)
Theorem pause_never_moves_camera (pg : Main.t) (evs : list Main.event) :
  Simulation.controls (Main.simulation (run pg evs))
  = Simulation.controls (Main.simulation (run pg (filter moves_camera evs)))
  /\ Simulation.camera_position (Main.simulation (run pg evs))
     = Simulation.camera_position
         (Main.simulation (run pg (filter moves_camera evs))).
Proof.
  apply (same_view_run evs pg pg). split; reflexivity.
Qed.

(** X9: no event of the page adds, removes or reorders a body or changes
    the table row a body carries: after any run the rows are the rows
    before it, in the same order. *)
Theorem rows_never_change (evs : list Main.event) :
  forall pg : Main.t,
    map Planet.data (Simulation.planets (Main.simulation (run pg evs)))
    = map Planet.data (Simulation.planets (Main.simulation pg))
    /\ List.length (Simulation.planets (Main.simulation (run pg evs)))
       = List.length (Simulation.planets (Main.simulation pg)).
Proof.
  induction evs as [ | ev evs IH]; intros pg; [ split; reflexivity | ].
  rewrite run_cons. destruct (IH (step pg ev)) as [Hd Hl]. rewrite Hd, Hl.
  destruct ev; try (split; reflexivity).
  rewrite step_frame. cbn [Main.simulation].
  rewrite planets_animate, <- (planets_polled pg). unfold mapi.
  rewrite length_mapi_from, map_mapi_from. split; [ | reflexivity ].
  rewrite (mapi_from_ext _ (fun _ a => Planet.data a)).
  - apply mapi_from_const_map.
  - intros i a. apply data_animate_planet.
Qed.

End PageRuns.

(** ** Which way a zoom step moves the camera *)

Section ZoomDirection.

Local Abbreviation minDistance s := (OrbitControls.minDistance (Simulation.controls s)).
Local Abbreviation maxDistance s := (OrbitControls.maxDistance (Simulation.controls s)).


End ZoomDirection.

(** ** What [init] leaves, and what every run keeps of it *)

Section AfterInit.

Variable controls_update :
  OrbitControls.t -> Vector3.t -> OrbitControls.t * Vector3.t.

Local Abbreviation animate := (Simulation.animate controls_update).
Local Abbreviation step := (Main.step controls_update).
Local Abbreviation run := (Main.run controls_update).

(** X11: with [Math.random()] in [[0, 1)], the simulation [init] returns
    for a table has the clock at [0], is not paused and has rendered
    nothing; every body has its phase in [[0, 2 pi)], no spin, and its mesh
    and its label at the origin, where they stay until the first frame. *)
Theorem initial_state (table : list Body.t) (random : nat -> R) (s : Simulation.t) :
  (forall k : nat, 0 <= random k < 1) ->
  Simulation.init_with table random = JS.Returns s ->
  Simulation.time s = 0
  /\ Simulation.isPaused s = false
  /\ Simulation.frames s = 0%nat
  /\ Forall (fun p =>
               0 <= Planet.angle p < 2 * PI
               /\ Mesh.rotation_y (Planet.mesh p) = 0
               /\ Mesh.position (Planet.mesh p) = Vector3.mk 0 0 0
               /\ Planet.label p = Some (Vector3.mk 0 0 0))
            (Simulation.planets s).
Proof.
  intros Hr H. injection H as <-.
  split; [ reflexivity | ]. split; [ reflexivity | ]. split; [ reflexivity | ].
  apply (Forall_mapi_from (fun _ => True)).
  - intros i a _. cbn. pose proof (Hr i) as Hi. pose proof PI_RGT_0 as Hpi.
    repeat split; try reflexivity; nra.
  - apply Forall_forall. intros; exact I.
Qed.

Lemma sunLight_step (pg : Main.t) (ev : Main.event) :
  Simulation.sunLight (Main.simulation pg) = Some (Vector3.mk 0 0 0) ->
  Simulation.sunLight (Main.simulation (step pg ev)) = Some (Vector3.mk 0 0 0).
Proof.
  intros H. destruct ev; try exact H.
  rewrite step_frame. cbn [Main.simulation].
  unfold Simulation.animate. destruct (controls_update _ _).
  cbn [Simulation.sunLight]. unfold polled.
  destruct (Main.hooked pg); [ | exact H ].
  cbn [Simulation.updateInteraction Simulation.sunLight]. rewrite H. reflexivity.
Qed.

(** X12: in every run of the page from [init] the point light is at the
    origin, and after a frame that is where the mesh of the body at index 0
    is: the light always sits in the Sun. *)
Theorem light_sits_in_the_sun (random : nat -> R) (s : Simulation.t)
    (evs : list Main.event) :
  Simulation.init random = JS.Returns s ->
  let s' := Main.simulation (run (Main.start s) (evs ++ [Main.AnimationFrame])) in
  Simulation.sunLight (Main.simulation (run (Main.start s) evs))
  = Some (Vector3.mk 0 0 0)
  /\ exists sun : Planet.t,
       nth_error (Simulation.planets s') 0 = Some sun
       /\ Simulation.sunLight s' = Some (Mesh.position (Planet.mesh sun)).
Proof.
  intros Hinit.
  assert (Hrun : forall (l : list Main.event) (pg : Main.t),
             Simulation.sunLight (Main.simulation pg) = Some (Vector3.mk 0 0 0) ->
             Simulation.sunLight (Main.simulation (run pg l)) = Some (Vector3.mk 0 0 0)).
  { induction l as [ | ev l IH]; intros pg H; [ exact H | ].
    apply (IH (step pg ev)). apply sunLight_step. exact H. }
  assert (H0 : Simulation.sunLight (Main.simulation (Main.start s))
               = Some (Vector3.mk 0 0 0))
    by (injection Hinit as <-; reflexivity).
  cbv zeta. split; [ apply Hrun; exact H0 | ].
  destruct (sun_pinned_in_every_run controls_update random s evs Hinit)
    as (sun & Hn & _ & _ & Hpos).
  exists sun. split; [ exact Hn | ]. rewrite Hpos. apply Hrun. exact H0.
Qed.

Lemma present_timeUniform_animate_planet (paused : bool) (now : R) (i : nat)
    (p : Planet.t) :
  Page.present (Mesh.timeUniform (Planet.mesh (Simulation.animate_planet paused now i p)))
  = Page.present (Mesh.timeUniform (Planet.mesh p)).
Proof.
  unfold Simulation.animate_planet. rewrite mesh_update_label.
  destruct (Nat.eqb i 0); cbn [Planet.mesh Mesh.timeUniform]; [ | reflexivity ].
  destruct (Mesh.timeUniform (Planet.mesh p)); reflexivity.
Qed.

Lemma shader_clock_step (pg : Main.t) (ev : Main.event) :
  Forall shader_clock_by_name (Simulation.planets (Main.simulation pg)) ->
  Forall shader_clock_by_name (Simulation.planets (Main.simulation (step pg ev))).
Proof.
  intros H. destruct ev; try exact H.
  rewrite step_frame. cbn [Main.simulation].
  rewrite planets_animate, planets_polled.
  apply (Forall_mapi_from shader_clock_by_name); [ | exact H ].
  intros i a Ha. unfold shader_clock_by_name in *.
  rewrite present_timeUniform_animate_planet, data_animate_planet. exact Ha.
Qed.

Lemma shader_clock_run (evs : list Main.event) :
  forall pg : Main.t,
    Forall shader_clock_by_name (Simulation.planets (Main.simulation pg)) ->
    Forall shader_clock_by_name (Simulation.planets (Main.simulation (run pg evs))).
Proof.
  induction evs as [ | ev evs IH]; intros pg H; [ exact H | ].
  apply (IH (step pg ev)). apply shader_clock_step. exact H.
Qed.

(** The rows after the first are not named ['Sun']. *)
Lemma only_first_row_is_sun (i : nat) (row : Body.t) :
  nth_error Simulation.bodies i = Some row ->
  String.eqb (Body.name row) "Sun" = Nat.eqb i 0.
Proof.
  intros H.
  do 9 (destruct i as [ | i]; [ injection H as <-; reflexivity | ]).
  destruct i; discriminate H.
Qed.

(** X13: in every run of the page from [init], after a frame the shader
    clock of the Sun (the [timeUniform] that [createPlanetMaterial] gives
    the material of the row named ['Sun']) holds the simulation clock, and
    no other body has a shader clock. *)
Theorem sun_shader_follows_clock (random : nat -> R) (s : Simulation.t)
    (evs : list Main.event) :
  Simulation.init random = JS.Returns s ->
  let s' := Main.simulation (run (Main.start s) (evs ++ [Main.AnimationFrame])) in
  forall (i : nat) (p : Planet.t),
    nth_error (Simulation.planets s') i = Some p ->
    Mesh.timeUniform (Planet.mesh p)
    = if Nat.eqb i 0 then Some (Simulation.time s') else None.
Proof.
  intros Hinit s' i p Hp. unfold s' in *. clear s'.
  rewrite run_app in Hp |- *.
  set (pg := run (Main.start s) evs) in *.
  assert (Hwired : Forall shader_clock_by_name (Simulation.planets (Main.simulation pg))).
  { apply shader_clock_run. injection Hinit as <-.
    apply (Forall_mapi_from (fun _ => True)).
    - intros k a _. unfold shader_clock_by_name. cbn.
      unfold Simulation.createPlanetMaterial.
      destruct (String.eqb (Body.name a) "Sun"); reflexivity.
    - apply Forall_forall. intros; exact I. }
  pose proof (registry_intact_run controls_update evs (Main.start s)
                (registry_intact_init random s Hinit)) as [Hd _].
  fold pg in Hd.
  change (run pg [Main.AnimationFrame]) with (step pg Main.AnimationFrame) in Hp |- *.
  rewrite step_frame in Hp |- *. cbn [Main.simulation] in Hp |- *.
  rewrite planets_animate, nth_error_mapi, planets_polled in Hp.
  destruct (nth_error (Simulation.planets (Main.simulation pg)) i) as [q | ] eqn:Hq;
    [ | discriminate Hp ].
  cbn [option_map] in Hp. injection Hp as <-.
  assert (Hrow : nth_error Simulation.bodies i = Some (Planet.data q)).
  { rewrite <- Hd. apply map_nth_error. exact Hq. }
  pose proof (only_first_row_is_sun i _ Hrow) as Hname.
  assert (Hq' : shader_clock_by_name q).
  { apply (proj1 (Forall_forall _ _) Hwired). apply (nth_error_In _ _ Hq). }
  unfold shader_clock_by_name in Hq'. rewrite Hname in Hq'.
  unfold Simulation.animate_planet. rewrite mesh_update_label.
  destruct (Nat.eqb i 0); cbn [Planet.mesh Mesh.timeUniform].
  - destruct (Mesh.timeUniform (Planet.mesh q)); [ reflexivity | discriminate Hq' ].
  - destruct (Mesh.timeUniform (Planet.mesh q)); [ discriminate Hq' | reflexivity ].
Qed.

End AfterInit.

(** ** Languages *)

Section Languages.

Variable controls_update :
  OrbitControls.t -> Vector3.t -> OrbitControls.t * Vector3.t.

Local Open Scope string_scope.


(** In English every name is its own translation, listed or not. *)
Lemma translatedName_en (entries : list (string * string)) (name : string) :
  Labels.translations "en" = Some entries ->
  Labels.translatedName entries name = name.
Proof.
  intros H. injection H as <-. unfold Labels.translatedName, Labels.lookup.
  repeat match goal with
         | |- context [String.eqb ?k name] =>
             destruct (String.eqb_spec k name) as [ <- | _ ]; [ reflexivity | ]
         end.
  reflexivity.
Qed.

Lemma supported_language (lang : string) :
  lang = "en" \/ lang = "zh" ->
  negb (String.eqb lang "en") && negb (String.eqb lang "zh") = false
  /\ exists entries, Labels.translations lang = Some entries.
Proof.
  intros [-> | ->]; (split; [ reflexivity | eexists; reflexivity ]).
Qed.

Lemma unsupported_language (lang : string) :
  lang <> "en" -> lang <> "zh" ->
  negb (String.eqb lang "en") && negb (String.eqb lang "zh") = true.
Proof.
  intros Hen Hzh.
  destruct (String.eqb_spec lang "en"); [ contradiction | ].
  destruct (String.eqb_spec lang "zh"); [ contradiction | ]. reflexivity.
Qed.

(** X15: on the bodies of the source's table, [setLanguage] redraws from
    the rows, not from what the labels showed: after a call that returned,
    a second call gives what it would have given without the first, so the
    last language wins; and English gives every label the name of its row,
    which undoes a switch to Chinese and brings back the labels [init]
    drew. *)
Theorem setLanguage_last_wins (lang1 lang2 : string) (sc sc1 : Labels.t) :
  map Planet.data (Simulation.planets (Labels.simulation sc)) = Simulation.bodies ->
  Labels.setLanguage lang1 sc = JS.Returns sc1 ->
  (lang2 = "en" \/ lang2 = "zh" ->
   Labels.setLanguage lang2 sc1 = Labels.setLanguage lang2 sc)
  /\ (forall sc2 : Labels.t,
        Labels.setLanguage "en" sc1 = JS.Returns sc2 ->
        sc2 = Labels.construct (Labels.simulation sc)).
Proof.
  intros _ H1.
  assert (Hsim : Labels.simulation sc1 = Labels.simulation sc).
  { unfold Labels.setLanguage in H1.
    destruct (negb (String.eqb lang1 "en") && negb (String.eqb lang1 "zh")).
    - injection H1 as <-. reflexivity.
    - destruct (Labels.translations lang1); [ | discriminate H1 ].
      destruct (forallb _ _); [ | discriminate H1 ].
      injection H1 as <-. reflexivity. }
  split.
  - intros Hl. destruct (supported_language lang2 Hl) as [Hg [entries He]].
    unfold Labels.setLanguage. rewrite Hg, He, Hsim. reflexivity.
  - intros sc2 H2. unfold Labels.setLanguage in H2. cbn in H2. rewrite Hsim in H2.
    destruct (forallb _ _); [ | discriminate H2 ].
    injection H2 as <-. unfold Labels.construct. f_equal.
    apply map_ext. intros p. apply translatedName_en. reflexivity.
Qed.










(** Every event keeps the Stop button in step. *)
Lemma stop_button_step (pg pg' : Page.t) (ev : Page.event) :
  stop_button_in_step pg ->
  Page.step controls_update pg ev = JS.Returns pg' ->
  stop_button_in_step pg'.
Proof.
  intros H Hs. unfold stop_button_in_step in *.
  destruct ev as [ [ | | | | ] | | | ]; unfold Page.step in Hs.
  - destruct (Page.btnZoomIn (Page.dom pg)); injection Hs as <-; exact H.
  - destruct (Page.btnZoomOut (Page.dom pg)); injection Hs as <-; exact H.
  - destruct (Page.btnStop (Page.dom pg)) as [b | ] eqn:Hb.
    + destruct (Page.uiTranslations (Page.currentLang pg)) as [t | ] eqn:Ht;
        [ | discriminate Hs ].
      injection Hs as <-. cbn. exists t. split; [ exact Ht | ].
      split; reflexivity.
    + injection Hs as <-. rewrite Hb. exact I.
  - injection Hs as <-. exact H.
  - injection Hs as <-. exact H.
  - destruct (Page.btnLang (Page.dom pg)) as [bl | ] eqn:Hbl;
      [ | injection Hs as <-; exact H ].
    unfold Page.updateUILanguage in Hs. cbv zeta in Hs.
    set (lang := if String.eqb (Page.currentLang pg) "en" then "zh" else "en") in Hs.
    destruct (Page.uiTranslations lang) as [t | ] eqn:Ht.
    + destruct (Labels.setLanguage lang (Page.scene pg)); [ | discriminate Hs ].
      injection Hs as <-. cbn [Page.dom Page.btnStop Page.currentLang Page.isPaused].
      destruct (Page.btnStop (Page.dom pg)) as [b | ]; [ | exact I ].
      destruct H as (t0 & _ & _ & Hbg).
      cbn [Page.set_button_text]. exists t. split; [ exact Ht | ].
      split; [ reflexivity | exact Hbg ].
    + rewrite Hbl in Hs. cbn [Page.present] in Hs.
      rewrite !orb_true_r in Hs. discriminate Hs.
  - injection Hs as <-. exact H.
  - injection Hs as <-. exact H.
Qed.

Lemma stop_button_run (evs : list Page.event) :
  forall pg pg' : Page.t,
    stop_button_in_step pg ->
    Page.run controls_update pg evs = JS.Returns pg' ->
    stop_button_in_step pg'.
Proof.
  induction evs as [ | ev evs IH]; intros pg pg' H Hr.
  - injection Hr as <-. exact H.
  - cbn [Page.run] in Hr.
    destruct (Page.step controls_update pg ev) as [pg1 | err] eqn:Hs;
      [ | discriminate Hr ].
    apply (IH pg1 pg'); [ | exact Hr ].
    apply (stop_button_step pg pg1 ev); assumption.
Qed.

(** X17: once the Stop button has been clicked, whatever events follow
    (zooms, frames, more clicks, language switches), on a page with a Stop
    button it reads Resume on red while the page is paused and Pause on no
    colour while it runs, in the language the page is in. *)
Theorem stop_button_tells_the_state (pg pg' : Page.t) (evs : list Page.event) :
  Page.run controls_update pg (Page.Core Main.ClickStop :: evs) = JS.Returns pg' ->
  match Page.btnStop (Page.dom pg') with
  | None => True
  | Some b =>
      exists t : Page.UiText,
        Page.uiTranslations (Page.currentLang pg') = Some t
        /\ Page.textContent b
           = (if Page.isPaused pg' then Page.resume t else Page.pause t)
        /\ Page.background b
           = (if Page.isPaused pg' then "#f44336" else EmptyString)
  end.
Proof.
  intros Hr. cbn [Page.run] in Hr.
  destruct (Page.step controls_update pg (Page.Core Main.ClickStop)) as [pg1 | err]
    eqn:Hs; [ | discriminate Hr ].
  apply (stop_button_run evs pg1 pg'); [ | exact Hr ].
  unfold Page.step in Hs. unfold stop_button_in_step.
  destruct (Page.btnStop (Page.dom pg)) as [b | ] eqn:Hb.
  - destruct (Page.uiTranslations (Page.currentLang pg)) as [t | ] eqn:Ht;
      [ | discriminate Hs ].
    injection Hs as <-. cbn. exists t. split; [ exact Ht | ]. split; reflexivity.
  - injection Hs as <-. rewrite Hb. exact I.
Qed.

End Languages.

(** ** Scenery *)

Section SceneryFacts.

Lemma create_star_spec (random : nat -> R) (k : nat) :
  (forall j : nat, 0 <= random j < 1) ->
  let st := fst (Scenery.create_star random k) in
  let next := snd (Scenery.create_star random k) in
  (- 500 <= Vector3.x (Scenery.starPos st) < 500
   /\ - 500 <= Vector3.y (Scenery.starPos st) < 500
   /\ - 500 <= Vector3.z (Scenery.starPos st) < 500)
  /\ 0.3 <= Scenery.starSize st < 2.3
  /\ (0.6 <= fst (fst (Scenery.starColor st)) <= 1
      /\ 0.6 <= snd (fst (Scenery.starColor st)) <= 1
      /\ 0.6 <= snd (Scenery.starColor st) <= 1)
  /\ (k + 6 <= next <= k + 8)%nat.
Proof.
  intros Hr. cbv zeta. unfold Scenery.create_star.
  pose proof (Hr k) as H0. pose proof (Hr (k + 1)%nat) as H1.
  pose proof (Hr (k + 2)%nat) as H2. pose proof (Hr (k + 4)%nat) as H4.
  pose proof (Hr (k + 6)%nat) as H6. pose proof (Hr (k + 7)%nat) as H7.
  assert (Hsize : 0.3 <= (if Rlt_dec (random (k + 3)%nat) 0.9
                          then random (k + 4)%nat * 0.6 + 0.3
                          else random (k + 4)%nat * 1.5 + 0.8) < 2.3)
    by (destruct (Rlt_dec _ _); lra).
  destruct (Rlt_dec (random (k + 5)%nat) 0.75);
    [ | destruct (Rlt_dec (random (k + 5)%nat) 0.9) ];
    cbn [fst snd Scenery.starPos Scenery.starSize Scenery.starColor
         Vector3.x Vector3.y Vector3.z];
    (split; [ lra | ]); (split; [ exact Hsize | ]); (split; [ lra | lia ]).
Qed.

(** X19: with [Math.random()] in [[0, 1)], the starfield loop makes as many
    stars as it is asked for, every coordinate in [[-500, 500)], every
    size in [[0.3, 2.3)] and every colour component in [[0.6, 1]], and it
    calls [Math.random()] at least 6 and at most 8 times a star. *)
Theorem starfield_within_bounds (random : nat -> R) (starCount k : nat) :
  (forall j : nat, 0 <= random j < 1) ->
  let stars := fst (Scenery.create_stars random starCount k) in
  let next := snd (Scenery.create_stars random starCount k) in
  List.length stars = starCount
  /\ (k + 6 * starCount <= next <= k + 8 * starCount)%nat
  /\ Forall (fun st =>
               (- 500 <= Vector3.x (Scenery.starPos st) < 500
                /\ - 500 <= Vector3.y (Scenery.starPos st) < 500
                /\ - 500 <= Vector3.z (Scenery.starPos st) < 500)
               /\ 0.3 <= Scenery.starSize st < 2.3
               /\ (0.6 <= fst (fst (Scenery.starColor st)) <= 1
                   /\ 0.6 <= snd (fst (Scenery.starColor st)) <= 1
                   /\ 0.6 <= snd (Scenery.starColor st) <= 1))
            stars.
Proof.
  intros Hr. cbv zeta. revert k.
  induction starCount as [ | n IH]; intros k.
  - cbn. split; [ reflexivity | ]. split; [ lia | constructor ].
  - cbn [Scenery.create_stars].
    pose proof (create_star_spec random k Hr) as Hstar. cbv zeta in Hstar.
    destruct (Scenery.create_star random k) as [st k1]. cbn [fst snd] in Hstar.
    destruct Hstar as (Hp & Hsz & Hc & Hk).
    specialize (IH k1).
    destruct (Scenery.create_stars random n k1) as [rest k2]. cbn [fst snd] in IH |- *.
    destruct IH as (Hl & Hn & Hall).
    split; [ cbn [List.length]; rewrite Hl; reflexivity | ].
    split; [ lia | ].
    constructor; [ | exact Hall ]. split; [ exact Hp | ]. split; assumption.
Qed.

(** The ring loop pushes three [NaN]s exactly for a body of size [0]. *)
Lemma ring_color_of_no_size (size x y : R) :
  Scenery.ring_color size x y = None <-> size = 0.
Proof.
  unfold Scenery.ring_color.
  destruct (Req_dec_T (size * 0.9) 0) as [ Hz | Hnz ].
  - split; [ intros _; lra | reflexivity ].
  - split; [ discriminate | intros Hs; exfalso; apply Hnz; rewrite Hs; ring ].
Qed.

(** X20: for a body whose size is not [0], whatever the vertex, the ring
    loop pushes a colour of three numbers, with its red in [[0.85, 1]], its
    green in [[0.75, 0.9]] and its blue in [[0.55, 0.65]]. *)
Theorem ring_color_within_bounds (size x y : R) :
  size <> 0 ->
  exists r g b : R,
    Scenery.ring_color size x y = Some (r, g, b)
    /\ 0.85 <= r <= 1
    /\ 0.75 <= g <= 0.9
    /\ 0.55 <= b <= 0.65.
Proof.
  intros Hsize. unfold Scenery.ring_color.
  destruct (Req_dec_T (size * 0.9) 0) as [ Hz | _ ]; [ exfalso; apply Hsize; lra | ].
  pose proof (SIN_bound ((sqrt (x * x + y * y) - size * 1.4) / (size * 0.9) * 15)) as Hs.
  do 3 eexists. split; [ reflexivity | ].
  repeat split; lra.
Qed.

(** X21: the ring loop reads the positions after [rotateX(-Math.PI / 2)]
    has laid the ring flat, so the [y] it reads is [0] and its [distance]
    is [|x|]: the colour of a ring vertex depends on the [x] of the vertex
    alone, not on how far the vertex is from the centre of the ring. *)
Theorem ring_bands_follow_x (size vx vy : R) :
  Scenery.ring_vertex_color size vx vy = Scenery.ring_color size (Rabs vx) 0
  /\ forall vy' : R,
       Scenery.ring_vertex_color size vx vy = Scenery.ring_vertex_color size (- vx) vy'.
Proof.
  assert (H : forall a b : R,
             Scenery.ring_vertex_color size a b = Scenery.ring_color size (Rabs a) 0).
  { intros a b. unfold Scenery.ring_vertex_color, Scenery.rotateX.
    cbn [Vector3.x Vector3.y Vector3.z].
    replace (- PI / 2) with (- (PI / 2)) by field.
    rewrite cos_neg, cos_PI2. unfold Scenery.ring_color.
    replace (a * a + (b * 0 - 0 * sin (- (PI / 2))) * (b * 0 - 0 * sin (- (PI / 2))))
      with (Rsqr a) by (unfold Rsqr; ring).
    replace (Rabs a * Rabs a + 0 * 0) with (Rsqr (Rabs a)) by (unfold Rsqr; ring).
    rewrite <- Rsqr_abs. reflexivity. }
  split; [ apply H | ].
  intros vy'. rewrite !H, Rabs_Ropp. reflexivity.
Qed.

End SceneryFacts.

(** ** The shader helper *)

Section CrossFacts.

(** X22: the helper [cross] is the vector product: its result is
    perpendicular to both arguments, swapping the arguments negates it, a
    vector crossed with any multiple of itself gives zero, and its squared
    length is [|a|^2 |b|^2 - (a . b)^2]. *)
Theorem cross_is_the_vector_product (a b : Vector3.t) (k : R) :
  dot a (TSL.cross a b) = 0
  /\ dot b (TSL.cross a b) = 0
  /\ TSL.cross b a = Vector3.multiplyScalar (TSL.cross a b) (- 1)
  /\ TSL.cross a (Vector3.multiplyScalar a k) = Vector3.zero
  /\ dot (TSL.cross a b) (TSL.cross a b) = dot a a * dot b b - dot a b * dot a b.
Proof.
  destruct a as [a1 a2 a3], b as [b1 b2 b3].
  unfold dot, TSL.cross, Vector3.multiplyScalar, Vector3.zero.
  cbn [Vector3.x Vector3.y Vector3.z].
  split; [ ring | ]. split; [ ring | ]. split; [ f_equal; ring | ].
  split; [ f_equal; ring | ring ].
Qed.

End CrossFacts.

(** ** The hook, and the page around the simulation *)

Section PageAroundCore.

Variable controls_update :
  OrbitControls.t -> Vector3.t -> OrbitControls.t * Vector3.t.

Lemma hooked_step (pg : Main.t) (ev : Main.event) :
  Main.hooked pg = true -> Main.hooked (Main.step controls_update pg ev) = true.
Proof.
  intros H. destruct ev; try exact H; try reflexivity.
  rewrite step_frame. exact H.
Qed.

(** X6: once the hook of [main.js] is in place it stays, and every frame
    does what the Pause button says at that moment: after any events, the
    next frame leaves the simulation's flag equal to the button's and
    advances the clock by [0.01] when the button is up and not at all when
    it is down. *)
Theorem hooked_frames_follow_button (evs : list Main.event) :
  forall pg : Main.t,
    Main.hooked pg = true ->
    let pg' := Main.run controls_update pg evs in
    let pg'' := Main.step controls_update pg' Main.AnimationFrame in
    Main.hooked pg' = true
    /\ Simulation.isPaused (Main.simulation pg'') = Main.isPaused pg'
    /\ Simulation.time (Main.simulation pg'')
       = Simulation.time (Main.simulation pg')
         + (if Main.isPaused pg' then 0 else 0.01).
Proof.
  induction evs as [ | ev evs IH]; intros pg Hh.
  - cbv zeta. cbn [Main.run fold_left]. rewrite step_frame. cbn [Main.simulation].
    rewrite isPaused_animate, time_animate, isPaused_polled, time_polled, Hh.
    split; [ reflexivity | ]. split; [ reflexivity | ].
    destruct (Main.isPaused pg); cbn [negb]; lra.
  - rewrite run_cons. apply IH. apply hooked_step. exact Hh.
Qed.

Lemma reaches_core_same_buttons (d1 d2 : Page.Dom) (ev : Page.event) :
  same_buttons d1 d2 -> reaches_core d1 ev = reaches_core d2 ev.
Proof.
  intros (H1 & H2 & H3). destruct ev as [ [ | | | | ] | | | ]; cbn [reaches_core];
    rewrite ?H1, ?H2, ?H3; reflexivity.
Qed.

Lemma present_set_button_text (b : option Page.Button) (v : string) :
  Page.present (Page.set_button_text b v) = Page.present b.
Proof. destruct b; reflexivity. Qed.

Lemma present_set_background (b : option Page.Button) (v : string) :
  Page.present (Page.set_background b v) = Page.present b.
Proof. destruct b; reflexivity. Qed.

(** One event of the page: the buttons stay, and the simulation and the
    flags move as the events it amounts to say. *)
Lemma page_step_core (pg pg' : Page.t) (ev : Page.event) :
  Page.step controls_update pg ev = JS.Returns pg' ->
  same_buttons (Page.dom pg') (Page.dom pg)
  /\ Page.core pg'
     = Main.run controls_update (Page.core pg) (reaches_core (Page.dom pg) ev).
Proof.
  intros Hs. unfold Page.step in Hs.
  destruct ev as [ [ | | | | ] | | | ]; cbn [reaches_core].
  - destruct (Page.btnZoomIn (Page.dom pg)) as [b | ] eqn:Hb; injection Hs as <-;
      cbn [Page.present].
    + split; [ | reflexivity ]. unfold same_buttons. cbn. rewrite Hb.
      repeat split; reflexivity.
    + split; [ | reflexivity ]. repeat split; reflexivity.
  - destruct (Page.btnZoomOut (Page.dom pg)) as [b | ] eqn:Hb; injection Hs as <-;
      cbn [Page.present].
    + split; [ | reflexivity ]. unfold same_buttons. cbn. rewrite Hb.
      repeat split; reflexivity.
    + split; [ | reflexivity ]. repeat split; reflexivity.
  - destruct (Page.btnStop (Page.dom pg)) as [b | ] eqn:Hb; cbn [Page.present].
    + destruct (Page.uiTranslations (Page.currentLang pg)); [ | discriminate Hs ].
      injection Hs as <-. split; [ | reflexivity ]. unfold same_buttons. cbn.
      rewrite Hb. repeat split; reflexivity.
    + injection Hs as <-. split; [ | reflexivity ]. repeat split; reflexivity.
  - injection Hs as <-. split; [ | reflexivity ]. repeat split; reflexivity.
  - injection Hs as <-. split; [ repeat split; reflexivity | ].
    unfold Page.core, Page.with_simulation, Main.run, Main.step.
    cbn [fold_left Page.scene Page.isPaused Page.hooked Labels.simulation
         Main.simulation Main.isPaused Main.hooked].
    destruct (Page.hooked pg); reflexivity.
  - destruct (Page.btnLang (Page.dom pg)) as [b | ];
      [ | injection Hs as <-; split; [ repeat split | ]; reflexivity ].
    cbv zeta in Hs.
    set (lang := if String.eqb (Page.currentLang pg) "en" then "zh"%string
                 else "en"%string) in Hs.
    unfold Page.updateUILanguage in Hs.
    destruct (Page.uiTranslations lang) as [t | ].
    + unfold Labels.setLanguage in Hs.
      assert (Hsim : forall sc, Labels.setLanguage lang (Page.scene pg) = JS.Returns sc ->
                                Labels.simulation sc = Labels.simulation (Page.scene pg)).
      { intros sc H. unfold Labels.setLanguage in H.
        destruct (negb (String.eqb lang "en") && negb (String.eqb lang "zh")).
        - injection H as <-. reflexivity.
        - destruct (Labels.translations lang); [ | discriminate H ].
          destruct (forallb _ _); [ | discriminate H ].
          injection H as <-. reflexivity. }
      fold (Labels.setLanguage lang (Page.scene pg)) in Hs.
      destruct (Labels.setLanguage lang (Page.scene pg)) as [sc | err] eqn:Hsc;
        [ | discriminate Hs ].
      injection Hs as <-. split.
      * unfold same_buttons. cbn [Page.dom Page.btnZoomIn Page.btnZoomOut Page.btnStop].
        rewrite !present_set_button_text. repeat split; reflexivity.
      * unfold Page.core. cbn [Page.scene Page.isPaused Page.hooked].
        rewrite (Hsim sc eq_refl). reflexivity.
    + destruct (_ || _); [ discriminate Hs | ].
      destruct (Labels.setLanguage lang (Page.scene pg)) as [sc | err] eqn:Hsc;
        [ | discriminate Hs ].
      injection Hs as <-. split; [ repeat split; reflexivity | ].
      unfold Page.core. cbn [Page.scene Page.isPaused Page.hooked].
      f_equal. unfold Labels.setLanguage in Hsc.
      destruct (negb (String.eqb lang "en") && negb (String.eqb lang "zh")).
      * injection Hsc as <-. reflexivity.
      * destruct (Labels.translations lang); [ | discriminate Hsc ].
        destruct (forallb _ _); [ | discriminate Hsc ].
        injection Hsc as <-. reflexivity.
  - injection Hs as <-. split; [ | reflexivity ]. unfold same_buttons. cbn.
    rewrite present_set_background. repeat split; reflexivity.
  - injection Hs as <-. split; [ | reflexivity ]. unfold same_buttons. cbn.
    rewrite present_set_background. repeat split; reflexivity.
Qed.

(** X18: switching the language never disturbs the simulation: over any
    events of the whole page whose handlers return, the simulation, the
    pause flag and the hook end up exactly where the zoom clicks, pause
    clicks, hook and frames among them put them; language clicks, flash
    timers and clicks on buttons the document lacks count for nothing. *)
Theorem language_never_disturbs_simulation (evs : list Page.event) :
  forall pg pg' : Page.t,
    Page.run controls_update pg evs = JS.Returns pg' ->
    Page.core pg'
    = Main.run controls_update (Page.core pg)
        (flat_map (reaches_core (Page.dom pg)) evs).
Proof.
  induction evs as [ | ev evs IH]; intros pg pg' Hr.
  - injection Hr as <-. reflexivity.
  - cbn [Page.run] in Hr.
    destruct (Page.step controls_update pg ev) as [pg1 | err] eqn:Hs;
      [ | discriminate Hr ].
    destruct (page_step_core pg pg1 ev Hs) as [Hb Hc].
    cbn [flat_map]. rewrite run_app, <- Hc, (IH pg1 pg' Hr).
    f_equal. apply flat_map_ext. intros e.
    apply reaches_core_same_buttons. exact Hb.
Qed.

End PageAroundCore.

(** ** The further properties at the concrete runs *)

Lemma mercury_in_first_simulation :
  nth_error (Simulation.planets first_simulation) 1
  = Some (Simulation.create_planet no_random 1
            (Body.mk "Mercury" 10 0.4 (0.7, 0.7, 0.7) 4.0 0.206)).
Proof. reflexivity. Qed.

Lemma no_random_in_range : forall k : nat, 0 <= no_random k < 1.
Proof. intros k. unfold no_random. lra. Qed.

(** Mercury after the first tick is between [7.94] and [12.06] from the Sun. *)
Lemma distance_to_sun_witness :
  exists p' : Planet.t,
    nth_error (Simulation.planets (Simulation.animate idle_controls first_simulation)) 1
    = Some p'
    /\ 10 * (1 - 0.206) <= Vector3.length (Mesh.position (Planet.mesh p'))
       <= 10 * (1 + 0.206).
Proof.
  assert (Hi : 1%nat <> 0%nat) by discriminate.
  assert (Ha : 0 <= (10 : R)) by lra.
  assert (He : 0 <= (0.206 : R) <= 1) by lra.
  destruct (distance_to_sun idle_controls first_simulation 1 _ Hi
              mercury_in_first_simulation Ha He) as (p' & Hn & _ & Hb).
  exists p'. split; [ exact Hn | exact Hb ].
Defined.

(** Mercury, started [0.02] short of a quarter turn, has phase [pi / 2]
    after one running tick, three quarters of a turn short of one turn: it
    is on point number 96 of its line. *)
Lemma orbit_line_is_the_path_witness :
  exists p' : Planet.t,
    nth_error (Simulation.planets (Simulation.animate idle_controls quarter_simulation)) 1
    = Some p'
    /\ Planet.angle p' = PI / 2
    /\ nth_error
         (Scenery.orbit_line (Body.mk "Mercury" 10 0.4 (0.7, 0.7, 0.7) 4.0 0.206)) 96
       = Some (Mesh.position (Planet.mesh p')).
Proof.
  pose (row := Body.mk "Mercury" 10 0.4 (0.7, 0.7, 0.7) 4.0 0.206).
  pose (p := Simulation.create_planet quarter_random 1 row).
  assert (H : nth_error (Simulation.planets quarter_simulation) 1 = Some p)
    by reflexivity.
  assert (Hi : 1%nat <> 0%nat) by discriminate.
  destruct (orbit_line_is_the_path idle_controls quarter_simulation 1 p Hi H)
    as (_ & _ & _ & p' & Hn & _ & Hpoint).
  assert (Hangle : Planet.angle p' = PI / 2).
  { rewrite (nth_planet_animate idle_controls _ _ _ H) in Hn.
    injection Hn as <-.
    destruct (animate_planet_orbiting
                (Simulation.isPaused quarter_simulation)
                (Simulation.time (Simulation.animate idle_controls quarter_simulation))
                1 p Hi) as [Ha _].
    refine (eq_trans Ha _).
    change (quarter_random 1%nat * PI * 2 + 4.0 * 0.005 = PI / 2).
    unfold quarter_random. field. apply PI_neq0. }
  exists p'. split; [ exact Hn | ]. split; [ exact Hangle | ].
  apply (Hpoint 96%nat 1%nat); [ lia | ].
  rewrite Hangle, !INR_IZR_INZ. cbn [Z.of_nat Pos.of_succ_nat Pos.succ]. field.
Defined.

(** Two running ticks of the first simulation. *)
Lemma running_ticks_witness :
  Simulation.time (iter 2 (Simulation.animate idle_controls) first_simulation)
  = 0 + INR 2 * 0.01
  /\ exists p' : Planet.t,
       nth_error
         (Simulation.planets (iter 2 (Simulation.animate idle_controls) first_simulation)) 1
       = Some p'
       /\ Planet.angle p' = 0 * PI * 2 + INR 2 * (4.0 * 0.005).
Proof.
  destruct (running_ticks idle_controls first_simulation 2 1 _ eq_refl
              mercury_in_first_simulation) as (Ht & _ & p' & Hn & _ & _ & Hi).
  split; [ exact Ht | ]. exists p'. split; [ exact Hn | ].
  assert (H1 : 1%nat <> 0%nat) by discriminate.
  destruct (Hi H1) as [Ha _]. exact Ha.
Defined.

(** A frame, a pause click, the hook and a second frame: one frame ran. *)
Lemma phase_counts_running_frames_witness :
  exists p' : Planet.t,
    nth_error
      (Simulation.planets
         (Main.simulation
            (Main.run idle_controls (Main.start first_simulation)
               [Main.AnimationFrame; Main.ClickStop; Main.HookTimeout;
                Main.AnimationFrame]))) 1
    = Some p'
    /\ Planet.angle p' = 0 * PI * 2 + INR 1 * (4.0 * 0.005).
Proof.
  destruct (phase_counts_running_frames idle_controls
              [Main.AnimationFrame; Main.ClickStop; Main.HookTimeout;
               Main.AnimationFrame]
              (Main.start first_simulation) 1 _ mercury_in_first_simulation)
    as (_ & p' & Hn & _ & Ha).
  exists p'. split; [ exact Hn | exact Ha ].
Defined.

(** A pause click and a frame before the hook: the clock still moves. *)
Lemma frames_before_hook_ignore_pause_witness :
  Main.isPaused
    (Main.run idle_controls (Main.start first_simulation)
       [Main.ClickStop; Main.AnimationFrame]) = true
  /\ Simulation.time
       (Main.simulation
          (Main.run idle_controls (Main.start first_simulation)
             [Main.ClickStop; Main.AnimationFrame]))
     = 0 + INR 1 * 0.01.
Proof.
  split; [ reflexivity | ].
  assert (Hno : ~ In Main.HookTimeout [Main.ClickStop; Main.AnimationFrame]).
  { intros [H | [H | []]]; discriminate H. }
  destruct (frames_before_hook_ignore_pause idle_controls
              [Main.ClickStop; Main.AnimationFrame]
              (Main.start first_simulation) eq_refl eq_refl Hno) as (_ & _ & Ht).
  exact Ht.
Defined.

(** The Sun's shader clock after the first frame. *)
Lemma sun_shader_follows_clock_witness :
  exists sun : Planet.t,
    nth_error
      (Simulation.planets
         (Main.simulation
            (Main.run idle_controls (Main.start first_simulation)
               [Main.AnimationFrame]))) 0 = Some sun
    /\ Mesh.timeUniform (Planet.mesh sun)
       = Some (Simulation.time
                 (Main.simulation
                    (Main.run idle_controls (Main.start first_simulation)
                       [Main.AnimationFrame]))).
Proof.
  eexists. split; [ reflexivity | ].
  exact (sun_shader_follows_clock idle_controls no_random first_simulation []
           init_first_simulation 0 _ eq_refl).
Defined.

(** The first simulation before any frame. *)
Lemma initial_state_witness :
  Simulation.time first_simulation = 0
  /\ Forall (fun p => 0 <= Planet.angle p < 2 * PI
                      /\ Mesh.position (Planet.mesh p) = Vector3.mk 0 0 0)
            (Simulation.planets first_simulation).
Proof.
  destruct (initial_state Simulation.bodies no_random first_simulation
              no_random_in_range init_first_simulation) as (Ht & _ & _ & Hall).
  split; [ exact Ht | ].
  apply (Forall_impl _ (P := fun p => 0 <= Planet.angle p < 2 * PI
             /\ Mesh.rotation_y (Planet.mesh p) = 0
             /\ Mesh.position (Planet.mesh p) = Vector3.mk 0 0 0
             /\ Planet.label p = Some (Vector3.mk 0 0 0))); [ | exact Hall ].
  intros p (Ha & _ & Hp & _). split; assumption.
Defined.

(** The light after a zoom click and a frame. *)
Lemma light_sits_in_the_sun_witness :
  Simulation.sunLight
    (Main.simulation
       (Main.run idle_controls (Main.start first_simulation) [Main.ClickZoomIn]))
  = Some (Vector3.mk 0 0 0).
Proof.
  exact (proj1 (light_sits_in_the_sun idle_controls no_random first_simulation
                  [Main.ClickZoomIn] init_first_simulation)).
Defined.


Lemma first_simulation_labelled :
  Forall has_label (Simulation.planets first_simulation).
Proof.
  apply (Forall_mapi_from (fun _ => True)).
  - intros i a _. unfold has_label. discriminate.
  - apply Forall_forall. intros; exact I.
Qed.

(** Chinese and back to English on the first simulation. *)
Lemma setLanguage_last_wins_witness :
  exists sc1 : Labels.t,
    Labels.setLanguage "zh" (Labels.construct first_simulation) = JS.Returns sc1
    /\ Labels.setLanguage "en" sc1
       = Labels.setLanguage "en" (Labels.construct first_simulation).
Proof.
  eexists. split; [ reflexivity | ].
  exact (proj1 (setLanguage_last_wins "zh" "en" (Labels.construct first_simulation) _
                  (data_create_planets no_random Simulation.bodies 0) eq_refl)
           (or_introl eq_refl)).
Defined.


(** The Stop button of the full document after one click. *)
Lemma stop_button_tells_the_state_witness :
  exists (pg' : Page.t) (b : Page.Button),
    Page.run idle_controls (Page.start first_simulation full_document)
      [Page.Core Main.ClickStop] = JS.Returns pg'
    /\ Page.btnStop (Page.dom pg') = Some b
    /\ Page.isPaused pg' = true
    /\ Page.background b = "#f44336"%string.
Proof.
  eexists. eexists. split; [ reflexivity | ]. split; [ reflexivity | ].
  split; [ reflexivity | ].
  pose proof (stop_button_tells_the_state idle_controls
                (Page.start first_simulation full_document) _ [] eq_refl) as H.
  cbn in H. destruct H as (t & _ & _ & Hbg). exact Hbg.
Defined.

(** Two stars drawn with [no_random]. *)
Lemma starfield_within_bounds_witness :
  List.length (fst (Scenery.create_stars no_random 2 0)) = 2%nat
  /\ (0 + 6 * 2 <= snd (Scenery.create_stars no_random 2 0) <= 0 + 8 * 2)%nat.
Proof.
  destruct (starfield_within_bounds no_random 2 0 no_random_in_range)
    as (Hl & Hn & _).
  split; [ exact Hl | exact Hn ].
Defined.

(** A vertex at [(9, 0)] of the ring of Saturn, whose size is [2.1]. *)
Lemma ring_color_within_bounds_witness :
  exists r g b : R,
    Scenery.ring_color 2.1 9 0 = Some (r, g, b)
    /\ 0.85 <= r <= 1
    /\ 0.75 <= g <= 0.9
    /\ 0.55 <= b <= 0.65.
Proof.
  apply (ring_color_within_bounds 2.1 9 0). lra.
Defined.

(** A hooked page with the button down: the next frame is a paused one. *)
Lemma hooked_frames_follow_button_witness :
  let pg' := Main.run idle_controls (Main.mk first_simulation false true)
               [Main.ClickStop] in
  Main.isPaused pg' = true
  /\ Simulation.isPaused
       (Main.simulation (Main.step idle_controls pg' Main.AnimationFrame)) = true
  /\ Simulation.time
       (Main.simulation (Main.step idle_controls pg' Main.AnimationFrame))
     = 0 + 0.
Proof.
  cbv zeta.
  destruct (hooked_frames_follow_button idle_controls [Main.ClickStop]
              (Main.mk first_simulation false true) eq_refl) as (_ & Hp & Ht).
  split; [ reflexivity | ]. split; [ exact Hp | exact Ht ].
Defined.

(** A language click between a pause click and a frame. *)
Lemma language_never_disturbs_simulation_witness :
  exists pg' : Page.t,
    Page.run idle_controls (Page.start first_simulation full_document)
      [Page.Core Main.ClickStop; Page.ClickLang; Page.Core Main.AnimationFrame]
    = JS.Returns pg'
    /\ Page.core pg'
       = Main.run idle_controls (Main.start first_simulation)
           [Main.ClickStop; Main.AnimationFrame].
Proof.
  eexists. split; [ reflexivity | ].
  exact (language_never_disturbs_simulation idle_controls
           [Page.Core Main.ClickStop; Page.ClickLang; Page.Core Main.AnimationFrame]
           (Page.start first_simulation full_document) _ eq_refl).
Defined.
